(** * ESP32 motor tester: the signal protocol engine of [motor_tester.ino]

    A shallow embedding of the sketch's ESC control core: the global
    control variables, the HTTP handlers that mutate them, the PWM and
    DShot signal generators and the main loop.

    Conventions of the embedding.
    - C [int] values are [Z]; conversions to the unsigned types the sketch
      uses ([uint16_t] for the DShot packet, [uint32_t] for the argument of
      [delayMicroseconds]) are written out with [to_u16] and [to_u32].
    - Arduino [String]s are [string]s, compared with [String.eqb] and
      [String.prefix] as the sketch does with [==] and [startsWith].
    - The [Preferences] store is a pair of finite maps keyed by strings.
    - Every function of the sketch is a computation in a state-and-trace
      monad [M]: it threads the [World] (globals and flash store) and
      appends the hardware and HTTP effects it performs to a trace.
    - [Serial] logging has no influence on the control state and is left
      out.  What [WiFi.status()] reports while [setup] waits for the
      connection is an input of [setup].
    - JSON documents are taken after deserialisation: a handler receives
      [None] when the request has no body and otherwise the fields that
      [containsKey] finds, already converted to [int] or [String]. *)

From Stdlib Require Import ZArith QArith String Lia.
From stdpp Require Import base tactics option list strings gmap.

Local Open Scope string_scope.
Local Open Scope list_scope.
Local Open Scope Z_scope.

(** ** Machine integers *)

Definition to_u16 (x : Z) : Z := x mod 2 ^ 16.
Definition to_u32 (x : Z) : Z := x mod 2 ^ 32.

(** Conversion of a [float] expression to [int]: truncation toward zero.
    The only [float] expressions of the sketch are
    [bitTime * ratio / 1000] with [ratio] 0.75 or 0.375 and [bitTime] one
    of three constants.  Both ratios and all six products are exactly
    representable in binary32, the single rounding of the division moves
    the quotient by less than 1e-6, and every exact quotient is at least
    2.5e-4 away from an integer, so the truncation of the exact rational
    is the truncation the hardware computes. *)
Definition float_to_int (q : Q) : Z := Z.quot (Qnum q) (Zpos (Qden q)).

(** Arduino's [constrain(amt, low, high)] macro. *)
Definition constrain (amt low high : Z) : Z :=
  if amt <? low then low else if amt >? high then high else amt.

(** [String::startsWith]. *)
Definition startsWith (s pre : string) : bool := String.prefix pre s.

(** ** Global variables and the flash store *)

Record EscState := mkEsc {
  escPin : Z;
  protocol : string;
  throttleValue : Z;
  escArmed : bool;
  direction : string;
  directionSupported : bool
}.

Record Prefs := mkPrefs {
  pref_ints : gmap string Z;
  pref_strings : gmap string string
}.

Record World := mkWorld {
  globals : EscState;
  preferences : Prefs;
  server_started : bool
}.

(** The initialisers of the global variables. *)
Definition initial_globals : EscState :=
  {| escPin := 5; protocol := "PWM"; throttleValue := 1000;
     escArmed := false; direction := "FORWARD";
     directionSupported := false |}.

(** ** DShot constants *)

Definition DSHOT150_BIT_TIME : Z := 6667.
Definition DSHOT300_BIT_TIME : Z := 3333.
Definition DSHOT600_BIT_TIME : Z := 1667.
Definition DSHOT_HIGH_RATIO : Q := 3 # 4.     (* 0.75 *)
Definition DSHOT_LOW_RATIO : Q := 3 # 8.      (* 0.375 *)

Definition DSHOT_CMD_MOTOR_STOP : Z := 0.
Definition DSHOT_CMD_SPIN_DIRECTION_NORMAL : Z := 20.
Definition DSHOT_CMD_SPIN_DIRECTION_REVERSED : Z := 21.

(** ** Effects *)

Inductive PinLevel := LOW | HIGH.
Inductive PinDir := INPUT | OUTPUT.

Inductive Event :=
  | PinMode (pin : Z) (mode : PinDir)
  | DigitalWrite (pin : Z) (level : PinLevel)
  | DelayMicroseconds (us : Z)
  | Delay (ms : Z)
  | NoInterrupts
  | Interrupts
  | Send (code : Z) (key value : string)       (* one-member JSON object *)
  | SendStatus (code : Z) (status : EscState).  (* the /api/status document *)

Definition M (A : Type) : Type := World → A * World * list Event.

#[export] Instance M_ret : MRet M := λ A a w, (a, w, []).
#[export] Instance M_bind : MBind M := λ A B k m w,
  let '(a, w1, e1) := m w in
  let '(b, w2, e2) := k a w1 in
  (b, w2, e1 ++ e2).

Definition world_after {A} (m : M A) (w : World) : World := (m w).1.2.
Definition state_after {A} (m : M A) (w : World) : EscState :=
  globals (world_after m w).
Definition events_of {A} (m : M A) (w : World) : list Event := (m w).2.

Definition get_globals : M EscState := λ w, (globals w, w, []).
Definition put_globals (g : EscState) : M unit := λ w,
  (tt, {| globals := g; preferences := preferences w;
          server_started := server_started w |}, []).
Definition emit (e : Event) : M unit := λ w, (tt, w, [e]).
Definition emit_all (es : list Event) : M unit := λ w, (tt, w, es).
Definition skip : M unit := mret tt.

(** Assignments to the individual globals. *)
Definition set_escPin (v : Z) : M unit :=
  g ← get_globals;
  put_globals {| escPin := v; protocol := protocol g;
                 throttleValue := throttleValue g; escArmed := escArmed g;
                 direction := direction g;
                 directionSupported := directionSupported g |}.
Definition set_protocol (v : string) : M unit :=
  g ← get_globals;
  put_globals {| escPin := escPin g; protocol := v;
                 throttleValue := throttleValue g; escArmed := escArmed g;
                 direction := direction g;
                 directionSupported := directionSupported g |}.
Definition set_throttleValue (v : Z) : M unit :=
  g ← get_globals;
  put_globals {| escPin := escPin g; protocol := protocol g;
                 throttleValue := v; escArmed := escArmed g;
                 direction := direction g;
                 directionSupported := directionSupported g |}.
Definition set_escArmed (v : bool) : M unit :=
  g ← get_globals;
  put_globals {| escPin := escPin g; protocol := protocol g;
                 throttleValue := throttleValue g; escArmed := v;
                 direction := direction g;
                 directionSupported := directionSupported g |}.
Definition set_direction (v : string) : M unit :=
  g ← get_globals;
  put_globals {| escPin := escPin g; protocol := protocol g;
                 throttleValue := throttleValue g; escArmed := escArmed g;
                 direction := v;
                 directionSupported := directionSupported g |}.
Definition set_directionSupported (v : bool) : M unit :=
  g ← get_globals;
  put_globals {| escPin := escPin g; protocol := protocol g;
                 throttleValue := throttleValue g; escArmed := escArmed g;
                 direction := direction g;
                 directionSupported := v |}.

(** Hardware and server primitives. *)
Definition pinMode (pin : Z) (mode : PinDir) : M unit := emit (PinMode pin mode).
Definition digitalWrite (pin : Z) (l : PinLevel) : M unit := emit (DigitalWrite pin l).
Definition delayMicroseconds (us : Z) : M unit := emit (DelayMicroseconds (to_u32 us)).
Definition delay (ms : Z) : M unit := emit (Delay ms).
Definition send (code : Z) (key value : string) : M unit := emit (Send code key value).

(** The [Preferences] API. *)
Definition putInt (key : string) (v : Z) : M unit := λ w,
  (tt, {| globals := globals w;
          preferences :=
            {| pref_ints := <[key := v]> (pref_ints (preferences w));
               pref_strings := pref_strings (preferences w) |};
          server_started := server_started w |}, []).
Definition putString (key v : string) : M unit := λ w,
  (tt, {| globals := globals w;
          preferences :=
            {| pref_ints := pref_ints (preferences w);
               pref_strings := <[key := v]> (pref_strings (preferences w)) |};
          server_started := server_started w |}, []).
Definition getInt (key : string) (dflt : Z) : M Z := λ w,
  (default dflt (pref_ints (preferences w) !! key), w, []).
Definition getString (key dflt : string) : M string := λ w,
  (default dflt (pref_strings (preferences w) !! key), w, []).

(** [for (int i = 0; i < n; i++) body]. *)
Fixpoint repeatM (n : nat) (body : M unit) : M unit :=
  match n with
  | O => skip
  | S n' => body ;; repeatM n' body
  end.

(** ** Signal generation *)

(** [sendPWM]. *)
Definition sendPWM (microseconds : Z) : M unit :=
  g ← get_globals;
  digitalWrite (escPin g) HIGH ;;
  delayMicroseconds microseconds ;;
  digitalWrite (escPin g) LOW ;;
  delayMicroseconds (20000 - microseconds).

(** [sendDShot], steps 1 and 2: the packet with its checksum. *)
Definition crc_step (st : Z * Z) : Z * Z :=
  let '(crc, temp) := st in
  (to_u16 (Z.lxor crc (Z.land temp 15)), to_u16 (Z.shiftr temp 4)).

Definition dshot_crc (packet : Z) : Z := (Nat.iter 3 crc_step (0, packet)).1.

Definition dshot_frame (value : Z) : Z :=
  let packet := to_u16 (Z.shiftl value 1) in
  let crc := dshot_crc packet in
  to_u16 (Z.lor packet (Z.shiftl crc 12)).

(** [sendDShot], step 3: the timing parameters. *)
Definition dshot_bitTime (proto : string) : Z :=
  if String.eqb proto "DSHOT300" then DSHOT300_BIT_TIME
  else if String.eqb proto "DSHOT600" then DSHOT600_BIT_TIME
  else DSHOT150_BIT_TIME.

Record DShotTiming := mkTiming {
  highTime1 : Z; lowTime1 : Z; highTime0 : Z; lowTime0 : Z
}.

Definition dshot_timing (proto : string) : DShotTiming :=
  let bitTime := dshot_bitTime proto in
  let highTime1 := float_to_int (inject_Z bitTime * DSHOT_HIGH_RATIO / inject_Z 1000)%Q in
  let lowTime1 := bitTime - highTime1 in
  let highTime0 := float_to_int (inject_Z bitTime * DSHOT_LOW_RATIO / inject_Z 1000)%Q in
  let lowTime0 := bitTime - highTime0 in
  {| highTime1 := highTime1; lowTime1 := lowTime1;
     highTime0 := highTime0; lowTime0 := lowTime0 |}.

(** [sendDShot], step 5: one bit on the wire, and the sixteen bits most
    significant first. *)
Definition dshot_bit (pin : Z) (t : DShotTiming) (b : bool) : list Event :=
  if b then
    [DigitalWrite pin HIGH; DelayMicroseconds (to_u32 (highTime1 t));
     DigitalWrite pin LOW; DelayMicroseconds (to_u32 (lowTime1 t))]
  else
    [DigitalWrite pin HIGH; DelayMicroseconds (to_u32 (highTime0 t));
     DigitalWrite pin LOW; DelayMicroseconds (to_u32 (lowTime0 t))].

Definition bit_indices : list Z :=
  [15; 14; 13; 12; 11; 10; 9; 8; 7; 6; 5; 4; 3; 2; 1; 0].

Definition dshot_signal (pin : Z) (proto : string) (value : Z) : list Event :=
  let packet := dshot_frame value in
  let t := dshot_timing proto in
  [NoInterrupts]
    ++ flat_map (λ i, dshot_bit pin t (Z.testbit packet i)) bit_indices
    ++ [Interrupts].

Definition sendDShot (value : Z) : M unit :=
  g ← get_globals;
  emit_all (dshot_signal (escPin g) (protocol g) value).

(** [sendDShotCommand]. *)
Definition sendDShotCommand (command : Z) : M unit :=
  g ← get_globals;
  if negb (startsWith (protocol g) "DSHOT") then skip
  else repeatM 10 (sendDShot command ;; delay 1).

(** [updateDirectionSupport]. *)
Definition updateDirectionSupport : M unit :=
  g ← get_globals;
  set_directionSupported (startsWith (protocol g) "DSHOT") ;;
  g ← get_globals;
  if negb (directionSupported g) then set_direction "FORWARD" else skip.

(** ** HTTP handlers *)

(** The body of [POST /api/config] after deserialisation. *)
Record ConfigDoc := mkConfigDoc {
  doc_pin : option Z;
  doc_protocol : option string
}.

(** A request as the web server routes it.  The outer [option] of a body
    is [server.hasArg("plain")], the inner one is [doc.containsKey]. *)
Inductive Request :=
  | GetStatus
  | PostConfig (plain : option ConfigDoc)
  | PostThrottle (plain : option (option Z))
  | PostDirection (plain : option (option string))
  | PostArm
  | PostDisarm
  | PostBrake.

(** [handleGetStatus]. *)
Definition handleGetStatus : M unit :=
  g ← get_globals; emit (SendStatus 200 g).

(** The protocol test of [handleSetConfig]. *)
Definition protocol_recognized (p : string) : bool :=
  String.eqb p "PWM" || String.eqb p "DSHOT150"
  || String.eqb p "DSHOT300" || String.eqb p "DSHOT600".

(** [handleSetConfig]. *)
Definition handleSetConfig (plain : option ConfigDoc) : M unit :=
  match plain with
  | Some doc =>
      match doc_pin doc with
      | Some newPin =>
          if (newPin >=? 0) && (newPin <=? 39) then
            g ← get_globals;
            pinMode (escPin g) INPUT ;;
            set_escPin newPin ;;
            g ← get_globals;
            pinMode (escPin g) OUTPUT ;;
            digitalWrite (escPin g) LOW ;;
            putInt "escPin" (escPin g)
          else skip
      | None => skip
      end ;;
      match doc_protocol doc with
      | Some newProtocol =>
          if protocol_recognized newProtocol then
            set_protocol newProtocol ;;
            g ← get_globals;
            putString "protocol" (protocol g) ;;
            updateDirectionSupport
          else skip
      | None => skip
      end ;;
      send 200 "status" "ok"
  | None => send 400 "error" "No data received"
  end.

(** [handleSetThrottle]. *)
Definition handleSetThrottle (plain : option (option Z)) : M unit :=
  match plain with
  | Some doc =>
      match doc with
      | Some value =>
          g ← get_globals;
          if String.eqb (protocol g) "PWM" then
            set_throttleValue (constrain value 1000 2000)
          else
            set_throttleValue (constrain value 0 2047)
      | None => skip
      end ;;
      send 200 "status" "ok"
  | None => send 400 "error" "No data received"
  end.

(** [handleArm]. *)
Definition handleArm : M unit :=
  set_escArmed true ;;
  g ← get_globals;
  (if String.eqb (protocol g) "PWM" then set_throttleValue 1000
   else set_throttleValue 48) ;;
  send 200 "status" "armed".

(** [handleDisarm]. *)
Definition handleDisarm : M unit :=
  set_escArmed false ;;
  set_throttleValue 0 ;;
  g ← get_globals;
  digitalWrite (escPin g) LOW ;;
  send 200 "status" "disarmed".

(** The direction test of [handleSetDirection]. *)
Definition direction_recognized (d : string) : bool :=
  String.eqb d "FORWARD" || String.eqb d "REVERSE" || String.eqb d "BRAKE".

(** [handleSetDirection]. *)
Definition handleSetDirection (plain : option (option string)) : M unit :=
  g ← get_globals;
  if negb (directionSupported g) then
    send 400 "error" "Direction control not supported by current protocol"
  else
    match plain with
    | Some doc =>
        match doc with
        | Some newDirection =>
            if direction_recognized newDirection then
              set_direction newDirection ;;
              g ← get_globals;
              putString "direction" (direction g) ;;
              (if String.eqb (direction g) "FORWARD" then
                 sendDShotCommand DSHOT_CMD_SPIN_DIRECTION_NORMAL
               else if String.eqb (direction g) "REVERSE" then
                 sendDShotCommand DSHOT_CMD_SPIN_DIRECTION_REVERSED
               else skip) ;;
              send 200 "status" "ok"
            else send 400 "error" "Invalid direction"
        | None => send 400 "error" "No direction specified"
        end
    | None => send 400 "error" "No data received"
    end.

(** [handleBrake]. *)
Definition handleBrake : M unit :=
  g ← get_globals;
  if negb (directionSupported g) then
    send 400 "error" "Braking not supported by current protocol"
  else if escArmed g then
    set_direction "BRAKE" ;;
    set_throttleValue 0 ;;
    sendDShotCommand DSHOT_CMD_MOTOR_STOP ;;
    send 200 "status" "braking"
  else send 400 "error" "ESC must be armed to brake".

(** The routes installed by [setupWebServer]. *)
Definition dispatch (r : Request) : M unit :=
  match r with
  | GetStatus => handleGetStatus
  | PostConfig plain => handleSetConfig plain
  | PostThrottle plain => handleSetThrottle plain
  | PostDirection plain => handleSetDirection plain
  | PostArm => handleArm
  | PostDisarm => handleDisarm
  | PostBrake => handleBrake
  end.

(** ** Start-up and main loop *)

(** What [WiFi.status()] reports during [setup]: whether it is
    [WL_CONNECTED] when the wait loop tests it with [connectionAttempts]
    at a given count, and when it is tested again after the loop. *)
Record WiFiEnv := mkWiFiEnv {
  connected_at : nat → bool;
  connected_after_wait : bool
}.

(** A network that is up, or down, during the whole of [setup]. *)
Definition wifi_steady (up : bool) : WiFiEnv :=
  {| connected_at := λ _, up; connected_after_wait := up |}.

(** The wait loop of [setup]:
    [while (WiFi.status() != WL_CONNECTED && connectionAttempts < 30)
       { delay(1000); connectionAttempts++; }].
    [budget] is [30 - connectionAttempts]. *)
Fixpoint wifi_wait (connected : nat → bool) (connectionAttempts budget : nat)
  : M unit :=
  match budget with
  | O => skip
  | S budget' =>
      if connected connectionAttempts then skip
      else delay 1000 ;; wifi_wait connected (S connectionAttempts) budget'
  end.

(** [setup].  [spiffs_ok] is the result of [SPIFFS.begin] and [wifi] what
    [WiFi.status()] reports; after either early return the web server is
    never started. *)
Definition setup (spiffs_ok : bool) (wifi : WiFiEnv) : M unit :=
  if negb spiffs_ok then skip
  else
    p ← getInt "escPin" 5; set_escPin p ;;
    s ← getString "protocol" "PWM"; set_protocol s ;;
    d ← getString "direction" "FORWARD"; set_direction d ;;
    updateDirectionSupport ;;
    g ← get_globals;
    pinMode (escPin g) OUTPUT ;;
    digitalWrite (escPin g) LOW ;;
    wifi_wait (connected_at wifi) 0 30 ;;
    if negb (connected_after_wait wifi) then skip
    else λ w, (tt, {| globals := globals w; preferences := preferences w;
                      server_started := true |}, []).

(** [server.handleClient()]: serves the pending request, if there is one
    and the server has been started. *)
Definition handleClient (pending : option Request) : M unit := λ w,
  match pending with
  | Some r => if server_started w then dispatch r w else skip w
  | None => skip w
  end.

(** The signal-generation block of [loop]. *)
Definition throttle_signal : M unit :=
  g ← get_globals;
  if escArmed g && (throttleValue g >? 0) then
    if String.eqb (protocol g) "PWM" then sendPWM (throttleValue g)
    else if startsWith (protocol g) "DSHOT" then sendDShot (throttleValue g)
    else skip
  else skip.

(** [loop]: one iteration, with the request that is pending when
    [handleClient] runs. *)
Definition loop (pending : option Request) : M unit :=
  handleClient pending ;;
  throttle_signal ;;
  delay 20.

(** ** Executions *)

(** A reset re-runs the initialisers of the globals and leaves the flash
    store as it is. *)
Definition power_on : M unit := λ w,
  (tt, {| globals := initial_globals; preferences := preferences w;
          server_started := false |}, []).

Inductive Op :=
  | Reboot (spiffs_ok : bool) (wifi : WiFiEnv)
  | Loop (pending : option Request).

Definition run_op (op : Op) : M unit :=
  match op with
  | Reboot a b => power_on ;; setup a b
  | Loop pending => loop pending
  end.

Definition run (ops : list Op) (w : World) : World :=
  foldl (λ w op, world_after (run_op op) w) w ops.

(** A board whose flash has never been written, at power-on. *)
Definition factory_world : World :=
  {| globals := initial_globals;
     preferences := {| pref_ints := ∅; pref_strings := ∅ |};
     server_started := false |}.

Inductive reachable : World → Prop :=
  | reach_factory : reachable factory_world
  | reach_op w op : reachable w → reachable (world_after (run_op op) w).

(** ** Properties named by the specification *)

Definition is_dshot_variant (p : string) : Prop :=
  p = "DSHOT150" ∨ p = "DSHOT300" ∨ p = "DSHOT600".

(** The throttle range of the active protocol, as the specification words
    it. *)
Definition throttle_in_protocol_range (g : EscState) : Prop :=
  (protocol g = "PWM" → 1000 ≤ throttleValue g ≤ 2000) ∧
  (is_dshot_variant (protocol g) → 0 ≤ throttleValue g ≤ 2047).

(** The frame layout of the DShot protocol: value in bits 15..5, telemetry
    flag in bit 4, checksum in bits 3..0. *)
Definition frame_value_field (frame : Z) : Z := Z.shiftr frame 5.
Definition frame_telemetry_bit (frame : Z) : bool := Z.testbit frame 4.
Definition frame_crc_field (frame : Z) : Z := Z.land frame 15.

(** A world with the given globals, an empty flash store and the web
    server running. *)
Definition started (g : EscState) : World :=
  {| globals := g; preferences := {| pref_ints := ∅; pref_strings := ∅ |};
     server_started := true |}.

(** The three low nibbles of a packet folded with XOR: the checksum loop
    of [sendDShot] written out. *)
Definition nibble_fold (packet : Z) : Z :=
  Z.lxor (Z.lxor (Z.land packet 15) (Z.land (Z.shiftr packet 4) 15))
         (Z.land (Z.shiftr packet 8) 15).

(** Ten transmissions of one command, each followed by the 1 ms pause. *)
Definition command_burst (pin : Z) (proto : string) (command : Z) : list Event :=
  concat (replicate 10 (dshot_signal pin proto command ++ [Delay 1])).

(** [r] is [v] saturated to [[lo,hi]]: the value itself inside the range,
    the nearest bound outside. *)
Definition saturated (lo hi v r : Z) : Prop :=
  (v < lo → r = lo) ∧ (v > hi → r = hi) ∧ (lo ≤ v ≤ hi → r = v).

(** A configure request that carries an out-of-range pin or an unrecognised
    protocol name. *)
Definition config_invalid (doc : ConfigDoc) : Prop :=
  (∃ p, doc_pin doc = Some p ∧ ¬ (0 ≤ p ≤ 39))
  ∨ (∃ s, doc_protocol doc = Some s ∧ protocol_recognized s = false).

(** The invariant of the control state and of the stored settings. *)
Record Inv (w : World) : Prop := mkInv {
  inv_throttle : 0 ≤ throttleValue (globals w) ≤ 2047;
  inv_protocol : protocol_recognized (protocol (globals w)) = true;
  inv_support :
    directionSupported (globals w) = startsWith (protocol (globals w)) "DSHOT";
  inv_direction :
    directionSupported (globals w) = false → direction (globals w) = "FORWARD";
  inv_stored : ∀ p,
    pref_strings (preferences w) !! "protocol" = Some p →
    protocol_recognized p = true
}.

(** ** Reading a trace *)

(** The HIGH durations on the wire: the delay that follows each HIGH write. *)
Fixpoint high_times (es : list Event) : list Z :=
  match es with
  | [] => []
  | DigitalWrite _ HIGH :: DelayMicroseconds us :: rest => us :: high_times rest
  | _ :: rest => high_times rest
  end.

(** A bit sequence read most significant bit first. *)
Definition bits_to_Z (bs : list bool) : Z :=
  foldl (λ acc b, 2 * acc + Z.b2z b) 0 bs.

(** What a receiver that knows the timing reads off a trace: a bit is 1
    when its HIGH duration is the one of a logic 1. *)
Definition decode_wire (t : DShotTiming) (es : list Event) : Z :=
  bits_to_Z (map (λ us, us =? to_u32 (highTime1 t)) (high_times es)).

(** The microseconds a trace spends in [delayMicroseconds]. *)
Fixpoint busy_wait_us (es : list Event) : Z :=
  match es with
  | [] => 0
  | DelayMicroseconds us :: rest => us + busy_wait_us rest
  | _ :: rest => busy_wait_us rest
  end.

(** The pins a trace writes a level to. *)
Fixpoint written_pins (es : list Event) : list Z :=
  match es with
  | [] => []
  | DigitalWrite pin _ :: rest => pin :: written_pins rest
  | _ :: rest => written_pins rest
  end.

(** The level the last write of a trace leaves on [pin], if it writes it. *)
Definition final_level (pin : Z) (es : list Event) : option PinLevel :=
  foldl (λ acc e,
           match e with
           | DigitalWrite p l => if p =? pin then Some l else acc
           | _ => acc
           end) None es.

(** ** Runs *)

(** How often the wait loop of [setup] calls [delay(1000)]. *)
Fixpoint wifi_waits (connected : nat → bool) (connectionAttempts budget : nat)
  : nat :=
  match budget with
  | O => O
  | S budget' =>
      if connected connectionAttempts then O
      else S (wifi_waits connected (S connectionAttempts) budget')
  end.

Definition is_arm_op (op : Op) : bool :=
  match op with
  | Loop (Some PostArm) => true
  | _ => false
  end.

(** The settings kept valid by every operation, in the globals and in the
    flash store. *)
Record InvSettings (w : World) : Prop := mkInvSettings {
  inv_pin : 0 ≤ escPin (globals w) ≤ 39;
  inv_dir : direction_recognized (direction (globals w)) = true;
  inv_stored_pin : ∀ p,
    pref_ints (preferences w) !! "escPin" = Some p → 0 ≤ p ≤ 39;
  inv_stored_dir : ∀ d,
    pref_strings (preferences w) !! "direction" = Some d →
    direction_recognized d = true;
  inv_stored_protocol :
    protocol (globals w) = "PWM"
    ∨ pref_strings (preferences w) !! "protocol" = Some (protocol (globals w))
}.

(** * Proofs *)

(** ** Running the monad *)

#[local] Arguments startsWith : simpl never.
#[local] Arguments String.eqb : simpl never.
#[local] Arguments protocol_recognized : simpl never.
#[local] Arguments direction_recognized : simpl never.
#[local] Arguments dshot_signal : simpl never.
#[local] Arguments constrain : simpl never.
#[local] Arguments to_u32 : simpl never.
#[local] Arguments Z.sub : simpl never.
#[local] Arguments wifi_wait : simpl never.

Ltac run_monad :=
  cbv [world_after state_after events_of mbind mret M_bind M_ret skip
       get_globals put_globals emit emit_all set_escPin set_protocol
       set_throttleValue set_escArmed set_direction set_directionSupported
       pinMode digitalWrite delayMicroseconds delay send putInt putString
       getInt getString] in *;
  simpl in *.

Ltac destruct_world w :=
  destruct w as [[pin proto thr armed dir sup] [ints strs] srv].

(** ** Strings and clamping *)

Lemma protocol_recognized_spec p :
  protocol_recognized p = true ↔ p = "PWM" ∨ is_dshot_variant p.
Proof.
  unfold protocol_recognized, is_dshot_variant.
  rewrite !orb_true_iff, !String.eqb_eq. tauto.
Qed.

Lemma dshot_variant_startsWith p :
  is_dshot_variant p → startsWith p "DSHOT" = true.
Proof. intros [-> | [-> | ->]]; reflexivity. Qed.

Lemma dshot_variant_not_PWM p :
  is_dshot_variant p → String.eqb p "PWM" = false.
Proof. intros [-> | [-> | ->]]; reflexivity. Qed.

Lemma recognized_startsWith p :
  protocol_recognized p = true →
  startsWith p "DSHOT" = true ↔ is_dshot_variant p.
Proof.
  intros Hp. split; [| apply dshot_variant_startsWith].
  apply protocol_recognized_spec in Hp as [-> | Hd]; [discriminate | done].
Qed.

Lemma constrain_bounds v lo hi : lo ≤ hi → lo ≤ constrain v lo hi ≤ hi.
Proof.
  intros Hle. unfold constrain.
  destruct (Z.ltb_spec v lo); [lia |].
  destruct (v >? hi) eqn:Hgt; [lia |].
  rewrite Z.gtb_ltb in Hgt. apply Z.ltb_ge in Hgt. lia.
Qed.

Lemma constrain_nearest v lo hi :
  lo ≤ hi → constrain v lo hi = Z.max lo (Z.min hi v).
Proof.
  intros Hle. unfold constrain.
  destruct (Z.ltb_spec v lo); [lia |].
  destruct (v >? hi) eqn:Hgt.
  - apply Z.gtb_lt in Hgt. lia.
  - rewrite Z.gtb_ltb in Hgt. apply Z.ltb_ge in Hgt. lia.
Qed.

(** ** Equations of the helper functions *)

Lemma updateDirectionSupport_run w :
  updateDirectionSupport w =
  (tt,
   {| globals :=
        {| escPin := escPin (globals w);
           protocol := protocol (globals w);
           throttleValue := throttleValue (globals w);
           escArmed := escArmed (globals w);
           direction :=
             if startsWith (protocol (globals w)) "DSHOT"
             then direction (globals w) else "FORWARD";
           directionSupported := startsWith (protocol (globals w)) "DSHOT" |};
      preferences := preferences w;
      server_started := server_started w |},
   []).
Proof.
  destruct_world w. unfold updateDirectionSupport. run_monad.
  destruct (startsWith proto "DSHOT"); reflexivity.
Qed.

Lemma sendDShot_run value w :
  sendDShot value w =
  (tt, w, dshot_signal (escPin (globals w)) (protocol (globals w)) value).
Proof. reflexivity. Qed.

Lemma sendPWM_run us w :
  sendPWM us w =
  (tt, w,
   [DigitalWrite (escPin (globals w)) HIGH; DelayMicroseconds (to_u32 us);
    DigitalWrite (escPin (globals w)) LOW;
    DelayMicroseconds (to_u32 (20000 - us))]).
Proof. reflexivity. Qed.

Lemma repeatM_pure n (es : list Event) (body : M unit) w :
  body w = (tt, w, es) →
  repeatM n body w = (tt, w, concat (replicate n es)).
Proof.
  intros Hbody. induction n as [| n IH]; [reflexivity |].
  simpl. unfold mbind, M_bind. rewrite Hbody, IH. reflexivity.
Qed.

Lemma wifi_wait_run connected attempts budget w :
  wifi_wait connected attempts budget w
  = (tt, w, replicate (wifi_waits connected attempts budget) (Delay 1000)).
Proof.
  revert attempts. induction budget as [| budget IH]; intros attempts;
    [reflexivity |].
  change (wifi_wait connected attempts (S budget) w)
    with ((if connected attempts then skip
           else delay 1000 ;; wifi_wait connected (S attempts) budget) w).
  cbn [wifi_waits]. destruct (connected attempts); [reflexivity |].
  unfold mbind, M_bind, delay, emit. rewrite IH. reflexivity.
Qed.

Lemma sendDShotCommand_run command w :
  sendDShotCommand command w =
  (tt, w,
   if startsWith (protocol (globals w)) "DSHOT"
   then command_burst (escPin (globals w)) (protocol (globals w)) command
   else []).
Proof.
  unfold sendDShotCommand, mbind, M_bind, get_globals.
  destruct (startsWith (protocol (globals w)) "DSHOT"); cbn [negb];
    [| reflexivity].
  rewrite (repeatM_pure 10
             (dshot_signal (escPin (globals w)) (protocol (globals w)) command
              ++ [Delay 1])).
  - reflexivity.
  - reflexivity.
Qed.

(** ** The invariant of the control state *)

Lemma Inv_factory : Inv factory_world.
Proof. split; simpl; try done; lia. Qed.

Lemma Inv_handleGetStatus w : Inv w → Inv (world_after handleGetStatus w).
Proof. destruct_world w. intros H. exact H. Qed.

Lemma Inv_handleSetConfig plain w :
  Inv w → Inv (world_after (handleSetConfig plain) w).
Proof.
  destruct_world w. intros [Ht Hp Hs Hd Hst]. simpl in *.
  unfold handleSetConfig.
  destruct plain as [[[newPin |] [newProtocol |]] |]; run_monad;
    try destruct ((newPin >=? 0) && (newPin <=? 39)); run_monad;
    try destruct (protocol_recognized newProtocol) eqn:Hnew; run_monad;
    try rewrite updateDirectionSupport_run; simpl;
    try (split; simpl; done).
  all: split; simpl; try done.
  all: try (intros Hf; rewrite Hf; reflexivity).
  all: intros p; rewrite lookup_insert_eq; congruence.
Qed.

Lemma Inv_handleSetThrottle plain w :
  Inv w → Inv (world_after (handleSetThrottle plain) w).
Proof.
  destruct_world w. intros [Ht Hp Hs Hd Hst]. simpl in *.
  unfold handleSetThrottle.
  destruct plain as [[value |] |]; run_monad; try (split; simpl; done).
  destruct (String.eqb proto "PWM"); run_monad; split; simpl; try done.
  - pose proof (constrain_bounds value 1000 2000). lia.
  - apply constrain_bounds. lia.
Qed.

Lemma Inv_handleArm w : Inv w → Inv (world_after handleArm w).
Proof.
  destruct_world w. intros [Ht Hp Hs Hd Hst]. simpl in *.
  unfold handleArm. run_monad.
  destruct (String.eqb proto "PWM"); run_monad; split; simpl; try done; lia.
Qed.

Lemma Inv_handleDisarm w : Inv w → Inv (world_after handleDisarm w).
Proof.
  destruct_world w. intros [Ht Hp Hs Hd Hst]. simpl in *.
  unfold handleDisarm. run_monad. split; simpl; try done; lia.
Qed.

Lemma Inv_handleSetDirection plain w :
  Inv w → Inv (world_after (handleSetDirection plain) w).
Proof.
  destruct_world w. intros [Ht Hp Hs Hd Hst]. simpl in *.
  unfold handleSetDirection. run_monad.
  destruct sup; simpl; [| split; simpl; done].
  destruct plain as [[newDirection |] |]; run_monad; try (split; simpl; done).
  destruct (direction_recognized newDirection); run_monad;
    [| split; simpl; done].
  destruct (String.eqb newDirection "FORWARD");
    [| destruct (String.eqb newDirection "REVERSE")];
    try rewrite sendDShotCommand_run; simpl; split; simpl; try done.
  all: intros p; rewrite lookup_insert_ne by done; apply Hst.
Qed.

Lemma Inv_handleBrake w : Inv w → Inv (world_after handleBrake w).
Proof.
  destruct_world w. intros [Ht Hp Hs Hd Hst]. simpl in *.
  unfold handleBrake. run_monad.
  destruct sup; simpl; [| split; simpl; done].
  destruct armed; simpl; [| split; simpl; done].
  rewrite sendDShotCommand_run. simpl. split; simpl; try done; lia.
Qed.

Lemma Inv_dispatch r w : Inv w → Inv (world_after (dispatch r) w).
Proof.
  destruct r; simpl;
    auto using Inv_handleGetStatus, Inv_handleSetConfig,
      Inv_handleSetThrottle, Inv_handleArm, Inv_handleDisarm,
      Inv_handleSetDirection, Inv_handleBrake.
Qed.

Lemma Inv_handleClient pending w :
  Inv w → Inv (world_after (handleClient pending) w).
Proof.
  intros H. unfold world_after, handleClient.
  destruct pending as [r |]; [| exact H].
  destruct (server_started w); [| exact H].
  apply Inv_dispatch, H.
Qed.

(** The signal block and the pause of [loop] leave the world as it is. *)
Lemma throttle_signal_world w : world_after throttle_signal w = w.
Proof.
  unfold throttle_signal. run_monad.
  destruct (escArmed (globals w) && (throttleValue (globals w) >? 0));
    [| reflexivity].
  destruct (String.eqb (protocol (globals w)) "PWM"); [reflexivity |].
  destruct (startsWith (protocol (globals w)) "DSHOT"); reflexivity.
Qed.

Lemma loop_world pending w :
  world_after (loop pending) w = world_after (handleClient pending) w.
Proof.
  unfold loop, world_after, mbind, M_bind.
  destruct (handleClient pending w) as [[[] w1] e1] eqn:E1.
  pose proof (throttle_signal_world w1) as Hsig. unfold world_after in Hsig.
  destruct (throttle_signal w1) as [[[] w2] e2]. simpl in *. subst w2.
  reflexivity.
Qed.

Lemma Inv_loop pending w : Inv w → Inv (world_after (loop pending) w).
Proof. rewrite loop_world. apply Inv_handleClient. Qed.

Lemma Inv_reset a b w : Inv w → Inv (world_after (run_op (Reboot a b)) w).
Proof.
  destruct_world w. intros [Ht Hp Hs Hd Hst]. simpl in *.
  unfold setup, power_on. run_monad.
  destruct a; simpl; [| split; simpl; try done; lia].
  rewrite updateDirectionSupport_run. simpl.
  assert (Hrec : protocol_recognized (default "PWM" (strs !! "protocol")) = true).
  { destruct (strs !! "protocol") as [p |] eqn:E; simpl; [eauto | reflexivity]. }
  rewrite wifi_wait_run. simpl.
  destruct (connected_after_wait b); simpl; split; simpl; try done; try lia.
  all: intros Hf; rewrite Hf; reflexivity.
Qed.

Lemma Inv_run_op op w : Inv w → Inv (world_after (run_op op) w).
Proof.
  destruct op as [a b | pending]; [apply Inv_reset | apply Inv_loop].
Qed.

Theorem reachable_Inv w : reachable w → Inv w.
Proof.
  induction 1 as [| w op _ IH]; [apply Inv_factory | apply Inv_run_op, IH].
Qed.

Lemma reachable_run ops w : reachable w → reachable (run ops w).
Proof.
  revert w. induction ops as [| op ops IH]; intros w Hw; [exact Hw |].
  simpl. apply IH. constructor. exact Hw.
Qed.

(** ** The control loop *)

(** C1. A tick of [loop] emits, after serving the pending request, the
    events of its signal block followed by the 20 ms pause.  The signal
    block emits nothing when the controller is disarmed or the throttle is
    not positive; whenever it emits anything the controller is armed, the
    throttle is positive, and the events are exactly those of
    [sendPWM(throttleValue)] or [sendDShot(throttleValue)].  The block never
    changes the state.  This holds in every state, hence in every reachable
    one and after every sequence of operations. *)
Theorem loop_signal_only_when_armed (pending : option Request) (w : World) :
  let w' := world_after (handleClient pending) w in
  let g := globals w' in
  events_of (loop pending) w
    = events_of (handleClient pending) w
        ++ events_of throttle_signal w' ++ [Delay 20]
  ∧ (escArmed g = false ∨ throttleValue g ≤ 0 →
       events_of throttle_signal w' = [])
  ∧ (events_of throttle_signal w' ≠ [] →
       escArmed g = true ∧ throttleValue g > 0
       ∧ (events_of throttle_signal w' = events_of (sendPWM (throttleValue g)) w'
          ∨ events_of throttle_signal w'
              = events_of (sendDShot (throttleValue g)) w'))
  ∧ world_after throttle_signal w' = w'.
Proof.
  intros w' g. split; [| split; [| split]].
  - unfold loop, events_of, mbind, M_bind. subst w'. unfold world_after.
    destruct (handleClient pending w) as [[[] w1] e1]. simpl.
    pose proof (throttle_signal_world w1) as Hsig. unfold world_after in Hsig.
    destruct (throttle_signal w1) as [[[] w2] e2]. simpl in *. subst w2.
    reflexivity.
  - intros Hoff. unfold throttle_signal, events_of, mbind, M_bind, get_globals.
    fold g. destruct Hoff as [-> | Hle]; [reflexivity |].
    assert ((throttleValue g >? 0) = false) as ->.
    { rewrite Z.gtb_ltb. apply Z.ltb_ge. exact Hle. }
    rewrite andb_false_r. reflexivity.
  - unfold throttle_signal, events_of, mbind, M_bind, get_globals. fold g.
    destruct (escArmed g) eqn:Ha; simpl; [| intros []; reflexivity].
    destruct (throttleValue g >? 0) eqn:Ht; simpl; [| intros []; reflexivity].
    apply Z.gtb_lt in Ht. intros Hne. split; [reflexivity |].
    split; [lia |].
    destruct (String.eqb (protocol g) "PWM"); [left; reflexivity |].
    destruct (startsWith (protocol g) "DSHOT"); [right; reflexivity |].
    exfalso. apply Hne. reflexivity.
  - apply throttle_signal_world.
Qed.

Lemma loop_signal_only_when_armed_witness :
  events_of throttle_signal
    (world_after (handleClient (Some PostDisarm))
       (started
          {| escPin := 5; protocol := "DSHOT300"; throttleValue := 1500;
             escArmed := true; direction := "FORWARD";
             directionSupported := true |})) = [].
Proof.
  apply (loop_signal_only_when_armed (Some PostDisarm)).
  left. reflexivity.
Defined.

(** ** The stored throttle *)

Lemma handleSetThrottle_in_range v w :
  throttle_in_protocol_range (state_after (handleSetThrottle (Some (Some v))) w).
Proof.
  destruct_world w. unfold handleSetThrottle, throttle_in_protocol_range.
  run_monad.
  destruct (String.eqb proto "PWM") eqn:E; simpl; split; intros Hp.
  - apply constrain_bounds. lia.
  - pose proof (constrain_bounds v 1000 2000). lia.
  - apply String.eqb_neq in E. contradiction.
  - apply constrain_bounds. lia.
Qed.

Lemma handleArm_in_range w :
  throttle_in_protocol_range (state_after handleArm w).
Proof.
  destruct_world w. unfold handleArm, throttle_in_protocol_range. run_monad.
  destruct (String.eqb proto "PWM") eqn:E; simpl; split; intros Hp; try lia.
  apply String.eqb_neq in E. contradiction.
Qed.

(** C2, as stated, fails: after start-up and a disarm request the protocol
    is PWM and the stored throttle is 0, outside [1000,2000]. *)
Lemma throttle_range_counterexample :
  let w := run [Reboot true (wifi_steady true); Loop (Some PostDisarm)] factory_world in
  reachable w ∧ ¬ throttle_in_protocol_range (globals w).
Proof.
  split.
  - apply reachable_run, reach_factory.
  - intros [Hpwm _].
    assert (E : globals (run [Reboot true (wifi_steady true); Loop (Some PostDisarm)]
                           factory_world)
                = {| escPin := 5; protocol := "PWM"; throttleValue := 0;
                     escArmed := false; direction := "FORWARD";
                     directionSupported := false |})
      by (vm_compute; reflexivity).
    rewrite E in Hpwm. simpl in Hpwm. specialize (Hpwm eq_refl). lia.
Qed.

(** C2, amended.  In every reachable state the stored throttle lies in
    [0,2047], whatever the protocol; this is the valid range of every DShot
    variant.  Directly after a throttle request or an arm request the
    throttle is within the range of the active protocol ([1000,2000] for
    PWM).  Under PWM it is not always in [1000,2000]: a disarm stores 0. *)
Theorem throttle_range_reachable (w : World) :
  reachable w →
  0 ≤ throttleValue (globals w) ≤ 2047
  ∧ (is_dshot_variant (protocol (globals w)) →
       0 ≤ throttleValue (globals w) ≤ 2047)
  ∧ (∀ v, throttle_in_protocol_range
            (state_after (handleSetThrottle (Some (Some v))) w))
  ∧ throttle_in_protocol_range (state_after handleArm w).
Proof.
  intros Hw. apply reachable_Inv in Hw. destruct Hw as [Ht _ _ _ _].
  split; [exact Ht |]. split; [intros _; exact Ht |].
  split; [intros v; apply handleSetThrottle_in_range |].
  apply handleArm_in_range.
Qed.

Lemma throttle_range_reachable_witness :
  0 ≤ throttleValue
        (globals (run [Reboot true (wifi_steady true); Loop (Some PostDisarm)] factory_world))
    ≤ 2047.
Proof.
  refine (proj1 (throttle_range_reachable
                   (run [Reboot true (wifi_steady true); Loop (Some PostDisarm)] factory_world)
                   _)).
  apply reachable_run, reach_factory.
Defined.

(** ** The DShot frame *)

Lemma to_u16_small x : 0 ≤ x < 65536 → to_u16 x = x.
Proof. intros Hx. unfold to_u16. apply Z.mod_small. lia. Qed.

Lemma nibble_bound x : 0 ≤ Z.land x 15 < 16.
Proof.
  change 15 with (Z.ones 4). rewrite Z.land_ones by lia.
  apply Z.mod_pos_bound. lia.
Qed.

Lemma log2_below a n : 0 < n → 0 ≤ a < 2 ^ n → Z.log2 a < n.
Proof.
  intros Hn [Ha Hlt]. destruct (Z.eq_dec a 0) as [-> | Hne].
  - simpl. exact Hn.
  - apply Z.log2_lt_pow2; lia.
Qed.

Lemma below_log2 a n : 0 < n → 0 ≤ a → Z.log2 a < n → a < 2 ^ n.
Proof.
  intros Hn Ha Hlog. destruct (Z.eq_dec a 0) as [-> | Hne].
  - apply Z.pow_pos_nonneg; lia.
  - apply Z.log2_lt_pow2; lia.
Qed.

Lemma lxor_bound a b n :
  0 < n → 0 ≤ a < 2 ^ n → 0 ≤ b < 2 ^ n → 0 ≤ Z.lxor a b < 2 ^ n.
Proof.
  intros Hn Ha Hb.
  assert (Hnn : 0 ≤ Z.lxor a b) by (apply Z.lxor_nonneg; lia).
  split; [exact Hnn |]. apply below_log2; [exact Hn | exact Hnn |].
  pose proof (Z.log2_lxor a b ltac:(lia) ltac:(lia)) as Hl.
  pose proof (log2_below a n Hn Ha). pose proof (log2_below b n Hn Hb). lia.
Qed.

Lemma lor_bound a b n :
  0 < n → 0 ≤ a < 2 ^ n → 0 ≤ b < 2 ^ n → 0 ≤ Z.lor a b < 2 ^ n.
Proof.
  intros Hn Ha Hb.
  assert (Hnn : 0 ≤ Z.lor a b) by (apply Z.lor_nonneg; lia).
  split; [exact Hnn |]. apply below_log2; [exact Hn | exact Hnn |].
  rewrite Z.log2_lor by lia.
  pose proof (log2_below a n Hn Ha). pose proof (log2_below b n Hn Hb). lia.
Qed.

Lemma nibble_fold_bound packet : 0 ≤ nibble_fold packet < 16.
Proof.
  unfold nibble_fold. change 16 with (2 ^ 4).
  repeat apply lxor_bound; try lia; apply nibble_bound.
Qed.

Lemma shiftr_bound x k n : 0 ≤ k → 0 ≤ x < n → 0 ≤ Z.shiftr x k < n.
Proof.
  intros Hk [Hx Hn]. rewrite Z.shiftr_div_pow2 by exact Hk.
  assert (0 < 2 ^ k) by (apply Z.pow_pos_nonneg; lia).
  split; [apply Z.div_pos; lia |].
  apply Z.le_lt_trans with x; [| exact Hn].
  apply Z.div_le_upper_bound; nia.
Qed.

Lemma dshot_crc_fold packet :
  0 ≤ packet < 65536 → dshot_crc packet = nibble_fold packet.
Proof.
  intros Hp. unfold nibble_fold.
  cbv [dshot_crc Nat.iter nat_rect crc_step fst]. rewrite Z.lxor_0_l.
  pose proof (nibble_bound packet) as H0.
  pose proof (shiftr_bound packet 4 65536 ltac:(lia) Hp) as Hs4.
  rewrite (to_u16_small (Z.shiftr packet 4)) by exact Hs4.
  pose proof (nibble_bound (Z.shiftr packet 4)) as H1.
  pose proof (shiftr_bound _ 4 65536 ltac:(lia) Hs4) as Hs8.
  rewrite (to_u16_small (Z.shiftr (Z.shiftr packet 4) 4)) by exact Hs8.
  rewrite Z.shiftr_shiftr by lia. change (4 + 4) with 8.
  pose proof (nibble_bound (Z.shiftr packet 8)) as H2.
  rewrite (to_u16_small (Z.land packet 15)) by lia.
  pose proof (lxor_bound (Z.land packet 15) (Z.land (Z.shiftr packet 4) 15) 4
                ltac:(lia) H0 H1) as H01.
  rewrite (to_u16_small (Z.lxor (Z.land packet 15) _)) by lia.
  pose proof (lxor_bound _ (Z.land (Z.shiftr packet 8) 15) 4
                ltac:(lia) H01 H2) as H012.
  rewrite to_u16_small by lia. reflexivity.
Qed.

Lemma packet_bound value :
  0 ≤ value ≤ 2047 → 0 ≤ Z.shiftl value 1 < 4096.
Proof. intros Hv. rewrite Z.shiftl_mul_pow2 by lia. lia. Qed.

Lemma dshot_frame_eq value :
  0 ≤ value ≤ 2047 →
  dshot_frame value
  = Z.lor (Z.shiftl value 1) (Z.shiftl (nibble_fold (Z.shiftl value 1)) 12).
Proof.
  intros Hv. unfold dshot_frame.
  pose proof (packet_bound value Hv) as Hp.
  rewrite (to_u16_small (Z.shiftl value 1)) by lia.
  rewrite dshot_crc_fold by lia.
  pose proof (nibble_fold_bound (Z.shiftl value 1)) as Hc.
  apply to_u16_small. change 65536 with (2 ^ 16).
  apply lor_bound; [lia | lia |].
  rewrite Z.shiftl_mul_pow2 by lia. lia.
Qed.

(** C3. For every value in [0,2047] the encoder of [sendDShot] forms
    [packet = value << 1], whose bit 0 (the telemetry flag) is 0, folds the
    three low nibbles of the packet with XOR into a 4-bit checksum, and ORs
    the checksum into bits 15..12 of the frame: the top nibble of the frame
    is the checksum and its low twelve bits are the packet.  For value 0 the
    top nibble is 0.  The frame depends on the value alone, so the bits on
    the wire are the same in any two states with the same pin and
    protocol. *)
Theorem dshot_frame_checksum (value : Z) :
  0 ≤ value ≤ 2047 →
  let packet := Z.shiftl value 1 in
  let crc :=
    Z.lxor (Z.lxor (Z.land packet 15) (Z.land (Z.shiftr packet 4) 15))
           (Z.land (Z.shiftr packet 8) 15) in
  dshot_crc packet = crc
  ∧ 0 ≤ crc < 16
  ∧ Z.testbit packet 0 = false
  ∧ dshot_frame value = Z.lor packet (Z.shiftl crc 12)
  ∧ Z.shiftr (dshot_frame value) 12 = crc
  ∧ Z.land (dshot_frame value) 4095 = packet
  ∧ Z.shiftr (dshot_frame 0) 12 = 0
  ∧ ∀ w1 w2 : World,
      escPin (globals w1) = escPin (globals w2) →
      protocol (globals w1) = protocol (globals w2) →
      events_of (sendDShot value) w1 = events_of (sendDShot value) w2.
Proof.
  intros Hv packet crc.
  pose proof (packet_bound value Hv) as Hp. fold packet in Hp.
  pose proof (nibble_fold_bound packet) as Hc.
  change (nibble_fold packet) with crc in Hc.
  assert (Hframe : dshot_frame value = Z.lor packet (Z.shiftl crc 12))
    by (apply dshot_frame_eq, Hv).
  split; [apply dshot_crc_fold; lia |].
  split; [exact Hc |].
  split; [apply Z.shiftl_spec_low; lia |].
  split; [exact Hframe |].
  split; [| split; [| split]].
  - rewrite Hframe, Z.shiftr_lor.
    rewrite Z.shiftr_shiftl_l by lia. change (12 - 12) with 0.
    rewrite Z.shiftl_0_r.
    rewrite (Z.shiftr_div_pow2 packet) by lia.
    rewrite Z.div_small by lia. apply Z.lor_0_l.
  - rewrite Hframe. change 4095 with (Z.ones 12).
    rewrite Z.land_lor_distr_l, !Z.land_ones by lia.
    rewrite Z.mod_small by lia.
    rewrite Z.shiftl_mul_pow2 by lia. rewrite Z.mod_mul by lia.
    apply Z.lor_0_r.
  - reflexivity.
  - intros w1 w2 Hpin Hproto. unfold events_of. rewrite !sendDShot_run. simpl.
    rewrite Hpin, Hproto. reflexivity.
Qed.

Lemma dshot_frame_checksum_witness :
  dshot_frame 1000 = Z.lor 2000 (Z.shiftl 10 12).
Proof.
  refine (proj1 (proj2 (proj2 (proj2 (dshot_frame_checksum 1000 _))))).
  lia.
Defined.

(** C4. The frame [sendDShot] assembles does not have the layout of the
    DShot protocol that its own comments describe (value in bits 15..5,
    telemetry flag in bit 4, checksum in bits 3..0).  For the value 1000 the
    frame is 0xA7D0: bits 15..5 hold 1342 instead of 1000, bit 4 is set, and
    bits 3..0 hold 0 instead of the checksum 10, which sits in bits 15..12
    while the value sits in bits 11..1.  A frame with the protocol's layout
    would be 0x7D0A. *)
Theorem dshot_frame_layout_1000 :
  dshot_frame 1000 = 42960
  ∧ dshot_crc (Z.shiftl 1000 1) = 10
  ∧ frame_value_field (dshot_frame 1000) = 1342
  ∧ frame_value_field (dshot_frame 1000) ≠ 1000
  ∧ frame_telemetry_bit (dshot_frame 1000) = true
  ∧ frame_crc_field (dshot_frame 1000) = 0
  ∧ frame_crc_field (dshot_frame 1000) ≠ dshot_crc (Z.shiftl 1000 1)
  ∧ Z.shiftr (dshot_frame 1000) 12 = 10
  ∧ Z.land (Z.shiftr (dshot_frame 1000) 1) 2047 = 1000.
Proof. repeat split; try reflexivity; vm_compute; discriminate. Qed.

(** ** DShot bit timing *)

(** C5. The durations [sendDShot] computes do not follow the protocol
    timing.  The HIGH durations are the ratio of the bit period converted to
    whole microseconds, but the LOW durations subtract that number of
    microseconds from the bit period in nanoseconds and are handed to
    [delayMicroseconds] as they are.  For DShot150 a logic-1 bit is HIGH for
    5 us and LOW for 6662 us: HIGH is 5/6667 of the bit, not 75%.  For
    DShot600 the HIGH duration of a logic-0 bit is 0. *)
Theorem dshot_timing_values :
  dshot_timing "DSHOT150"
    = {| highTime1 := 5; lowTime1 := 6662; highTime0 := 2; lowTime0 := 6665 |}
  ∧ dshot_timing "DSHOT300"
    = {| highTime1 := 2; lowTime1 := 3331; highTime0 := 1; lowTime0 := 3332 |}
  ∧ dshot_timing "DSHOT600"
    = {| highTime1 := 1; lowTime1 := 1666; highTime0 := 0; lowTime0 := 1667 |}
  ∧ (let t := dshot_timing "DSHOT150" in
     4 * highTime1 t ≠ 3 * (highTime1 t + lowTime1 t)
     ∧ 8 * highTime0 t ≠ 3 * (highTime0 t + lowTime0 t)
     ∧ dshot_bit 5 t true
       = [DigitalWrite 5 HIGH; DelayMicroseconds 5;
          DigitalWrite 5 LOW; DelayMicroseconds 6662]).
Proof. repeat split; try reflexivity; vm_compute; discriminate. Qed.

(** ** Throttle requests *)

Lemma constrain_saturated v lo hi : lo ≤ hi → saturated lo hi v (constrain v lo hi).
Proof.
  intros Hle. rewrite constrain_nearest by exact Hle.
  unfold saturated. lia.
Qed.

(** C6. A throttle request that carries a value always succeeds: the
    handler answers 200 with status ok and stores the value saturated to
    [1000,2000] under PWM and to [0,2047] under every DShot variant; no other
    field of the state changes. *)
Theorem setThrottle_clamps (w : World) (v : Z) :
  let g := globals w in
  let g' := state_after (handleSetThrottle (Some (Some v))) w in
  events_of (handleSetThrottle (Some (Some v))) w = [Send 200 "status" "ok"]
  ∧ (protocol g = "PWM" → saturated 1000 2000 v (throttleValue g'))
  ∧ (is_dshot_variant (protocol g) → saturated 0 2047 v (throttleValue g'))
  ∧ escPin g' = escPin g ∧ protocol g' = protocol g
  ∧ escArmed g' = escArmed g ∧ direction g' = direction g
  ∧ directionSupported g' = directionSupported g.
Proof.
  destruct_world w. unfold handleSetThrottle. run_monad.
  destruct (String.eqb proto "PWM") eqn:E; simpl.
  - apply String.eqb_eq in E. subst proto.
    split; [reflexivity |].
    split; [intros _; apply constrain_saturated; lia |].
    split; [intros [H | [H | H]]; discriminate |].
    repeat split; reflexivity.
  - apply String.eqb_neq in E.
    split; [reflexivity |].
    split; [intros Hpwm; contradiction |].
    split; [intros _; apply constrain_saturated; lia |].
    repeat split; reflexivity.
Qed.

Lemma setThrottle_clamps_witness :
  let pwm := started initial_globals in
  let dshot :=
    started {| escPin := 5; protocol := "DSHOT300"; throttleValue := 48;
               escArmed := true; direction := "FORWARD";
               directionSupported := true |} in
  throttleValue (state_after (handleSetThrottle (Some (Some 500))) pwm) = 1000
  ∧ throttleValue (state_after (handleSetThrottle (Some (Some 5000))) pwm) = 2000
  ∧ throttleValue (state_after (handleSetThrottle (Some (Some (-10)))) dshot) = 0
  ∧ throttleValue (state_after (handleSetThrottle (Some (Some 9999))) dshot) = 2047.
Proof.
  intros pwm dshot. split; [| split; [| split]].
  - refine (proj1 (proj1 (proj2 (setThrottle_clamps pwm 500)) _) _);
      [reflexivity | lia].
  - refine (proj1 (proj2 (proj1 (proj2 (setThrottle_clamps pwm 5000)) _)) _);
      [reflexivity | lia].
  - refine (proj1 (proj1 (proj2 (proj2 (setThrottle_clamps dshot (-10)))) _) _);
      [right; left; reflexivity | lia].
  - refine (proj1 (proj2 (proj1 (proj2 (proj2 (setThrottle_clamps dshot 9999))) _)) _);
      [right; left; reflexivity | lia].
Defined.

(** ** Configuration requests *)

Lemma pin_test_spec p : (p >=? 0) && (p <=? 39) = true ↔ 0 ≤ p ≤ 39.
Proof. rewrite andb_true_iff, Z.geb_leb, !Z.leb_le. tauto. Qed.

(** C7, as stated, fails: a request with the invalid pin 40 and the valid
    protocol DSHOT300 changes protocol and directionSupported, and the
    handler answers 200 with status ok. *)
Lemma configure_invalid_counterexample :
  let doc := {| doc_pin := Some 40; doc_protocol := Some "DSHOT300" |} in
  let w := started initial_globals in
  config_invalid doc
  ∧ state_after (handleSetConfig (Some doc)) w
    = {| escPin := 5; protocol := "DSHOT300"; throttleValue := 1000;
         escArmed := false; direction := "FORWARD";
         directionSupported := true |}
  ∧ state_after (handleSetConfig (Some doc)) w ≠ globals w
  ∧ events_of (handleSetConfig (Some doc)) w = [Send 200 "status" "ok"].
Proof.
  split; [| split; [| split]].
  - left. exists 40. split; [reflexivity | lia].
  - reflexivity.
  - vm_compute. discriminate.
  - reflexivity.
Qed.

(** C7, amended.  A configure request validates each field it carries on
    its own.  A pin outside [0,39] leaves the pin unchanged and a pin inside
    it is stored; an unrecognised protocol name leaves protocol, direction
    and directionSupported unchanged and a recognised one is stored; throttle
    and armed never change.  A request none of whose fields is valid leaves
    the whole world, stored settings included, unchanged.  The handler is a
    total function: it has no failing path. *)
Theorem configure_validates_each_field (w : World) (doc : ConfigDoc) :
  let g := globals w in
  let g' := state_after (handleSetConfig (Some doc)) w in
  throttleValue g' = throttleValue g
  ∧ escArmed g' = escArmed g
  ∧ ((∀ p, doc_pin doc = Some p → ¬ (0 ≤ p ≤ 39)) → escPin g' = escPin g)
  ∧ (∀ p, doc_pin doc = Some p → 0 ≤ p ≤ 39 → escPin g' = p)
  ∧ ((∀ s, doc_protocol doc = Some s → protocol_recognized s = false) →
       protocol g' = protocol g ∧ direction g' = direction g
       ∧ directionSupported g' = directionSupported g)
  ∧ (∀ s, doc_protocol doc = Some s → protocol_recognized s = true →
       protocol g' = s)
  ∧ ((∀ p, doc_pin doc = Some p → ¬ (0 ≤ p ≤ 39)) →
     (∀ s, doc_protocol doc = Some s → protocol_recognized s = false) →
     world_after (handleSetConfig (Some doc)) w = w).
Proof.
  destruct_world w. destruct doc as [[p |] [s |]];
    unfold handleSetConfig; run_monad.
  all: try (destruct ((p >=? 0) && (p <=? 39)) eqn:Ep;
            [apply pin_test_spec in Ep
            | apply not_true_iff_false in Ep; rewrite pin_test_spec in Ep]).
  all: try destruct (protocol_recognized s) eqn:Es.
  all: run_monad; try rewrite updateDirectionSupport_run; simpl.
  all: repeat match goal with
              | |- _ ∧ _ => split
              | |- _ → _ => intro
              | |- ∀ _, _ => intro
              end.
  all: repeat match goal with
              | H : ∀ q, Some ?x = Some q → _ |- _ => specialize (H x eq_refl)
              end.
  all: simplify_eq; first [reflexivity | contradiction | congruence].
Qed.

Lemma configure_validates_each_field_witness :
  let doc := {| doc_pin := Some 40; doc_protocol := Some "SERVO" |} in
  world_after (handleSetConfig (Some doc)) (started initial_globals)
  = started initial_globals.
Proof.
  intros doc.
  refine (proj2 (proj2 (proj2 (proj2 (proj2 (proj2
            (configure_validates_each_field (started initial_globals) doc))))))
            _ _).
  - intros p [= <-]. lia.
  - intros s [= <-]. reflexivity.
Defined.

(** ** Disarming *)

(** C8. A disarm request sets armed to false and the throttle to exactly 0,
    writes LOW to the ESC pin within the handler itself, answers 200, and
    leaves pin, protocol, direction and directionSupported as they are.  It
    is idempotent: a second disarm yields the same world as the first and
    performs the same pin write. *)
Theorem disarm_idempotent (w : World) :
  let w1 := world_after handleDisarm w in
  escArmed (globals w1) = false
  ∧ throttleValue (globals w1) = 0
  ∧ events_of handleDisarm w
    = [DigitalWrite (escPin (globals w)) LOW; Send 200 "status" "disarmed"]
  ∧ escPin (globals w1) = escPin (globals w)
  ∧ protocol (globals w1) = protocol (globals w)
  ∧ direction (globals w1) = direction (globals w)
  ∧ directionSupported (globals w1) = directionSupported (globals w)
  ∧ world_after handleDisarm w1 = w1
  ∧ events_of handleDisarm w1 = events_of handleDisarm w.
Proof.
  destruct_world w. unfold handleDisarm. run_monad.
  repeat match goal with |- _ ∧ _ => split end; reflexivity.
Qed.

(** ** Direction support *)

(** C9. In every reachable state directionSupported is true exactly when
    the active protocol is one of the three DShot variants, and under PWM the
    direction is FORWARD.  A configure request that selects PWM, with or
    without a pin, leaves the state with protocol PWM, direction FORWARD and
    directionSupported false, whatever the direction was before. *)
Theorem direction_support_invariant (w : World) :
  reachable w →
  (directionSupported (globals w) = true
   ↔ is_dshot_variant (protocol (globals w)))
  ∧ (protocol (globals w) = "PWM" → direction (globals w) = "FORWARD")
  ∧ ∀ newPin,
      let g' :=
        state_after
          (handleSetConfig
             (Some {| doc_pin := newPin; doc_protocol := Some "PWM" |})) w in
      protocol g' = "PWM" ∧ direction g' = "FORWARD"
      ∧ directionSupported g' = false.
Proof.
  intros Hw. apply reachable_Inv in Hw. destruct Hw as [_ Hp Hs Hd _].
  split; [| split].
  - rewrite Hs. apply recognized_startsWith, Hp.
  - intros Hpwm. apply Hd. rewrite Hs, Hpwm. reflexivity.
  - clear. destruct_world w. intros [p |]; unfold handleSetConfig; run_monad.
    + destruct ((p >=? 0) && (p <=? 39)); run_monad; repeat split; reflexivity.
    + repeat split; reflexivity.
Qed.

Lemma direction_support_invariant_witness :
  let w :=
    run [Reboot true (wifi_steady true);
         Loop (Some (PostConfig
                 (Some {| doc_pin := None; doc_protocol := Some "DSHOT600" |})));
         Loop (Some (PostDirection (Some (Some "REVERSE"))))]
      factory_world in
  direction (globals w) = "REVERSE"
  ∧ direction
      (state_after
         (handleSetConfig
            (Some {| doc_pin := None; doc_protocol := Some "PWM" |})) w)
    = "FORWARD".
Proof.
  intros w. split; [vm_compute; reflexivity |].
  refine (proj1 (proj2 (proj2 (proj2 (direction_support_invariant w _)) None))).
  apply reachable_run, reach_factory.
Defined.

(** ** Direction requests *)



(** * Further properties of the sketch *)

(** ** The DShot frame on the wire *)

Lemma dshot_timing_cases proto :
  (dshot_bitTime proto = 6667
   ∧ dshot_timing proto
     = {| highTime1 := 5; lowTime1 := 6662; highTime0 := 2; lowTime0 := 6665 |})
  ∨ (dshot_bitTime proto = 3333
     ∧ dshot_timing proto
       = {| highTime1 := 2; lowTime1 := 3331; highTime0 := 1; lowTime0 := 3332 |})
  ∨ (dshot_bitTime proto = 1667
     ∧ dshot_timing proto
       = {| highTime1 := 1; lowTime1 := 1666; highTime0 := 0; lowTime0 := 1667 |}).
Proof.
  unfold dshot_timing, dshot_bitTime.
  destruct (String.eqb proto "DSHOT300");
    [right; left; split; reflexivity |].
  destruct (String.eqb proto "DSHOT600");
    [right; right; split; reflexivity | left; split; reflexivity].
Qed.

Lemma high_times_bits pin t (f : Z → bool) (l : list Z) (rest : list Event) :
  high_times (flat_map (λ i, dshot_bit pin t (f i)) l ++ rest)
  = map (λ i, if f i then to_u32 (highTime1 t) else to_u32 (highTime0 t)) l
    ++ high_times rest.
Proof.
  induction l as [| i l IH]; [reflexivity |].
  simpl. unfold dshot_bit at 1. destruct (f i); simpl; rewrite IH; reflexivity.
Qed.

Lemma bits_to_Z_acc (acc : Z) (bs : list bool) :
  foldl (λ a b, 2 * a + Z.b2z b) acc bs
  = acc * 2 ^ Z.of_nat (length bs) + bits_to_Z bs.
Proof.
  unfold bits_to_Z. revert acc.
  induction bs as [| b bs IH]; intros acc.
  - simpl. lia.
  - cbn [foldl length]. rewrite IH, (IH (2 * 0 + Z.b2z b)).
    rewrite Nat2Z.inj_succ, Z.pow_succ_r by lia. lia.
Qed.

Lemma bits_to_Z_testbits (x : Z) (n : nat) :
  0 ≤ x →
  bits_to_Z (map (Z.testbit x) (map Z.of_nat (rev (seq 0 n)))) = x mod 2 ^ Z.of_nat n.
Proof.
  intros Hx. induction n as [| n IH].
  - simpl. rewrite Z.mod_1_r. reflexivity.
  - rewrite seq_S, rev_app_distr. cbn [rev app map].
    unfold bits_to_Z. cbn [foldl]. rewrite bits_to_Z_acc, IH.
    rewrite !length_map, length_rev, length_seq.
    rewrite Z.testbit_spec' by lia.
    rewrite Nat2Z.inj_succ, Z.pow_succ_r by lia.
    rewrite (Z.mul_comm 2 (2 ^ Z.of_nat n)).
    rewrite Z.rem_mul_r by (try apply Z.pow_nonzero; lia).
    cbn [Nat.add]. lia.
Qed.

Lemma bit_indices_seq : bit_indices = map Z.of_nat (rev (seq 0 16)).
Proof. reflexivity. Qed.

Lemma dshot_frame_range value : 0 ≤ dshot_frame value < 65536.
Proof.
  unfold dshot_frame, to_u16 at 1. apply Z.mod_pos_bound. lia.
Qed.

(** X1. The bits [sendDShot] puts on the wire, read most significant bit
    first by their HIGH durations, are the sixteen bits of the frame; this
    holds for every pin, every protocol string and every value. *)
Theorem dshot_wire_roundtrip (pin : Z) (proto : string) (value : Z) :
  decode_wire (dshot_timing proto) (dshot_signal pin proto value)
  = dshot_frame value.
Proof.
  unfold decode_wire, dshot_signal. cbn [app high_times].
  rewrite high_times_bits. cbn [high_times]. rewrite app_nil_r, map_map.
  assert (Hbit : ∀ b : bool,
            ((if b then to_u32 (highTime1 (dshot_timing proto))
              else to_u32 (highTime0 (dshot_timing proto)))
             =? to_u32 (highTime1 (dshot_timing proto))) = b).
  { intros b.
    destruct (dshot_timing_cases proto) as [[_ ->] | [[_ ->] | [_ ->]]];
      destruct b; reflexivity. }
  erewrite map_ext by (intros i; apply Hbit).
  rewrite bit_indices_seq, bits_to_Z_testbits by apply dshot_frame_range.
  apply Z.mod_small. pose proof (dshot_frame_range value). lia.
Qed.

Lemma frame_payload value :
  0 ≤ value ≤ 2047 →
  Z.land (dshot_frame value) 4095 = Z.shiftl value 1
  ∧ Z.shiftr (dshot_frame value) 12 = nibble_fold (Z.shiftl value 1).
Proof.
  intros Hv. pose proof (packet_bound value Hv) as Hp.
  pose proof (nibble_fold_bound (Z.shiftl value 1)) as Hc.
  rewrite dshot_frame_eq by exact Hv. split.
  - change 4095 with (Z.ones 12).
    rewrite Z.land_lor_distr_l, !Z.land_ones by lia.
    rewrite Z.mod_small by lia.
    rewrite (Z.shiftl_mul_pow2 (nibble_fold _)) by lia.
    rewrite Z.mod_mul by lia. apply Z.lor_0_r.
  - rewrite Z.shiftr_lor.
    rewrite (Z.shiftr_shiftl_l (nibble_fold (Z.shiftl value 1)) 12 12) by lia.
    change (12 - 12) with 0. rewrite Z.shiftl_0_r.
    rewrite (Z.shiftr_div_pow2 (Z.shiftl value 1)) by lia.
    rewrite Z.div_small by lia. apply Z.lor_0_l.
Qed.

(** X2. For values in [0,2047] the frame can be taken apart again: the value
    is bits 11..1 of the frame, the top nibble is the XOR fold of the low
    twelve bits, and two different values never share a frame. *)
Theorem dshot_frame_recover (v1 v2 : Z) :
  0 ≤ v1 ≤ 2047 → 0 ≤ v2 ≤ 2047 →
  Z.land (Z.shiftr (dshot_frame v1) 1) 2047 = v1
  ∧ Z.shiftr (dshot_frame v1) 12 = nibble_fold (Z.land (dshot_frame v1) 4095)
  ∧ (dshot_frame v1 = dshot_frame v2 → v1 = v2).
Proof.
  intros H1 H2.
  assert (Hrec : ∀ v, 0 ≤ v ≤ 2047 →
            Z.land (Z.shiftr (dshot_frame v) 1) 2047 = v).
  { intros v Hv. pose proof (nibble_fold_bound (Z.shiftl v 1)) as Hc.
    rewrite dshot_frame_eq by exact Hv.
    rewrite Z.shiftr_lor.
    rewrite (Z.shiftr_shiftl_l v 1 1) by lia.
    rewrite (Z.shiftr_shiftl_l (nibble_fold (Z.shiftl v 1)) 12 1) by lia.
    change (1 - 1) with 0. change (12 - 1) with 11. rewrite Z.shiftl_0_r.
    change 2047 with (Z.ones 11).
    rewrite Z.land_lor_distr_l, !Z.land_ones by lia.
    rewrite Z.mod_small by lia.
    rewrite Z.shiftl_mul_pow2 by lia. rewrite Z.mod_mul by lia.
    apply Z.lor_0_r. }
  destruct (frame_payload v1 H1) as [Hlow Htop].
  split; [apply Hrec, H1 |]. split; [rewrite Hlow; exact Htop |].
  intros Heq. rewrite <- (Hrec v1 H1), <- (Hrec v2 H2), Heq. reflexivity.
Qed.

Lemma dshot_frame_recover_witness :
  Z.land (Z.shiftr (dshot_frame 48) 1) 2047 = 48.
Proof.
  refine (proj1 (dshot_frame_recover 48 1000 _ _)); lia.
Defined.

Lemma busy_wait_us_app (a b : list Event) :
  busy_wait_us (a ++ b) = busy_wait_us a + busy_wait_us b.
Proof.
  induction a as [| e a IH]; [reflexivity |].
  destruct e; simpl; rewrite IH; lia.
Qed.

Lemma busy_wait_bits pin t (f : Z → bool) (l : list Z) (B : Z) :
  (∀ b, busy_wait_us (dshot_bit pin t b) = B) →
  busy_wait_us (flat_map (λ i, dshot_bit pin t (f i)) l)
  = B * Z.of_nat (length l).
Proof.
  intros HB. induction l as [| i l IH].
  - simpl. lia.
  - cbn [flat_map length]. rewrite busy_wait_us_app, HB, IH. lia.
Qed.

Lemma dshot_signal_busy_wait pin proto value :
  busy_wait_us (dshot_signal pin proto value) = 16 * dshot_bitTime proto.
Proof.
  unfold dshot_signal. cbn [app busy_wait_us].
  rewrite busy_wait_us_app. cbn [busy_wait_us].
  rewrite (busy_wait_bits _ _ _ _ (dshot_bitTime proto)).
  - change (Z.of_nat (length bit_indices)) with 16. lia.
  - intros b.
    destruct (dshot_timing_cases proto) as [[-> ->] | [[-> ->] | [-> ->]]];
      destruct b; reflexivity.
Qed.

(** X3. One call of [sendDShot] keeps the processor, with interrupts
    disabled, in [delayMicroseconds] for sixteen times the number the sketch
    calls the bit time, whatever the value sent: the delay arguments of a
    frame add up to 106672 for DSHOT150, 53328 for DSHOT300 and 26672 for
    DSHOT600, and every protocol string other than DSHOT300 and DSHOT600 is
    timed as DSHOT150. *)
Theorem dshot_frame_busy_wait (pin : Z) (proto : string) (value : Z) :
  let total := busy_wait_us (dshot_signal pin proto value) in
  total = 16 * dshot_bitTime proto
  ∧ (proto = "DSHOT150" → total = 106672)
  ∧ (proto = "DSHOT300" → total = 53328)
  ∧ (proto = "DSHOT600" → total = 26672)
  ∧ (proto ≠ "DSHOT300" → proto ≠ "DSHOT600" → total = 106672).
Proof.
  cbn zeta. rewrite dshot_signal_busy_wait.
  split; [reflexivity |].
  split; [intros ->; reflexivity |].
  split; [intros ->; reflexivity |].
  split; [intros ->; reflexivity |].
  intros H3 H6. unfold dshot_bitTime.
  apply String.eqb_neq in H3, H6. rewrite H3, H6. reflexivity.
Qed.

Lemma dshot_frame_busy_wait_witness :
  busy_wait_us (dshot_signal 5 "DSHOT600" 1000) = 26672
  ∧ busy_wait_us (dshot_signal 5 "PWM" 1000) = 106672.
Proof.
  split.
  - refine (proj1 (proj2 (proj2 (proj2
              (dshot_frame_busy_wait 5 "DSHOT600" 1000)))) _).
    reflexivity.
  - refine (proj2 (proj2 (proj2 (proj2
              (dshot_frame_busy_wait 5 "PWM" 1000)))) _ _); discriminate.
Defined.

Lemma written_pins_bits pin t (f : Z → bool) (l : list Z) (rest : list Event) :
  written_pins (flat_map (λ i, dshot_bit pin t (f i)) l ++ rest)
  = replicate (2 * length l) pin ++ written_pins rest.
Proof.
  induction l as [| i l IH]; [reflexivity |].
  cbn [flat_map length]. unfold dshot_bit at 1.
  replace (2 * S (length l))%nat with (S (S (2 * length l))) by lia.
  destruct (f i); simpl; rewrite IH; reflexivity.
Qed.

Lemma final_level_bits pin t (f : Z → bool) (l : list Z) acc :
  l ≠ [] →
  foldl (λ acc e,
           match e with
           | DigitalWrite p lv => if p =? pin then Some lv else acc
           | _ => acc
           end) acc (flat_map (λ i, dshot_bit pin t (f i)) l)
  = Some LOW.
Proof.
  revert acc. induction l as [| i l IH]; intros acc Hne; [done |].
  cbn [flat_map]. rewrite foldl_app.
  destruct l as [| j l].
  - unfold dshot_bit. destruct (f i); simpl; rewrite Z.eqb_refl; reflexivity.
  - apply IH. done.
Qed.

Lemma length_bits pin t (f : Z → bool) (l : list Z) :
  length (flat_map (λ i, dshot_bit pin t (f i)) l) = (4 * length l)%nat.
Proof.
  induction l as [| i l IH]; [reflexivity |].
  cbn [flat_map length]. rewrite length_app, IH. unfold dshot_bit.
  destruct (f i); simpl; lia.
Qed.

Lemma dshot_signal_written pin proto value :
  written_pins (dshot_signal pin proto value) = replicate 32 pin.
Proof.
  unfold dshot_signal. cbn [app written_pins].
  rewrite written_pins_bits. reflexivity.
Qed.

Lemma dshot_signal_final pin proto value :
  final_level pin (dshot_signal pin proto value) = Some LOW.
Proof.
  unfold final_level, dshot_signal. cbn [app foldl]. rewrite foldl_app.
  rewrite final_level_bits by done. reflexivity.
Qed.

(** X4. Every frame [sendDShot] emits has the same shape: 66 events that
    begin by disabling interrupts and end by enabling them again, 32 pin
    writes that all go to the ESC pin, and the line is left LOW. *)
Theorem dshot_signal_shape (pin : Z) (proto : string) (value : Z) :
  let es := dshot_signal pin proto value in
  length es = 66%nat
  ∧ head es = Some NoInterrupts
  ∧ last es = Some Interrupts
  ∧ written_pins es = replicate 32 pin
  ∧ final_level pin es = Some LOW.
Proof.
  unfold dshot_signal. cbn zeta. split; [| split; [| split; [| split]]].
  - cbn [app length]. rewrite length_app, length_bits. reflexivity.
  - reflexivity.
  - cbn [app]. rewrite last_cons, last_snoc. reflexivity.
  - apply dshot_signal_written.
  - apply dshot_signal_final.
Qed.

(** ** The PWM pulse *)

Lemma to_u32_small x : 0 ≤ x < 4294967296 → to_u32 x = x.
Proof. intros Hx. unfold to_u32. apply Z.mod_small. lia. Qed.

(** X5. [sendPWM] drives the ESC pin HIGH for the requested time and LOW for
    the rest of 20000 us whenever the request is between 0 and 20000, leaves
    the line LOW and changes no state.  A request above 20000 makes the LOW
    time wrap around as an unsigned 32-bit number. *)
Theorem sendPWM_period (us : Z) (w : World) :
  let pin := escPin (globals w) in
  world_after (sendPWM us) w = w
  ∧ (0 ≤ us ≤ 20000 →
       events_of (sendPWM us) w
       = [DigitalWrite pin HIGH; DelayMicroseconds us;
          DigitalWrite pin LOW; DelayMicroseconds (20000 - us)]
       ∧ busy_wait_us (events_of (sendPWM us) w) = 20000
       ∧ final_level pin (events_of (sendPWM us) w) = Some LOW)
  ∧ (20000 < us < 4294967296 →
       events_of (sendPWM us) w
       = [DigitalWrite pin HIGH; DelayMicroseconds us;
          DigitalWrite pin LOW; DelayMicroseconds (4294987296 - us)]).
Proof.
  unfold events_of, world_after. rewrite sendPWM_run. cbn [fst snd].
  split; [reflexivity |]. split.
  - intros Hus. rewrite !to_u32_small by lia.
    split; [reflexivity |]. split.
    + cbn [busy_wait_us]. lia.
    + unfold final_level. cbn [foldl]. rewrite Z.eqb_refl. reflexivity.
  - intros Hus. rewrite (to_u32_small us) by lia.
    replace (to_u32 (20000 - us)) with (4294987296 - us); [reflexivity |].
    unfold to_u32.
    apply (Z.mod_unique_pos _ _ (-1)). all: lia.
Qed.

Lemma sendPWM_period_witness :
  busy_wait_us (events_of (sendPWM 1500) (started initial_globals)) = 20000.
Proof.
  refine (proj1 (proj2 (proj1 (proj2
            (sendPWM_period 1500 (started initial_globals))) _))).
  lia.
Defined.

(** ** What the signal block writes *)

Lemma startsWith_DSHOT_not_PWM p :
  startsWith p "DSHOT" = true → String.eqb p "PWM" = false.
Proof.
  intros Hp. destruct (String.eqb_spec p "PWM") as [-> | _];
    [discriminate | reflexivity].
Qed.

(** X6. Whatever the state, the signal block of [loop] writes to no pin
    other than the current ESC pin, and when it emits a signal it leaves
    that pin LOW. *)
Theorem throttle_signal_pin (w : World) :
  let es := events_of throttle_signal w in
  Forall (λ q, q = escPin (globals w)) (written_pins es)
  ∧ (es ≠ [] → final_level (escPin (globals w)) es = Some LOW).
Proof.
  intros es. subst es. unfold events_of, throttle_signal.
  cbv [mbind M_bind get_globals].
  destruct (escArmed (globals w) && (throttleValue (globals w) >? 0));
    [| split; [constructor | done]].
  destruct (String.eqb (protocol (globals w)) "PWM").
  - rewrite sendPWM_run. cbn [snd fst app written_pins].
    split; [repeat constructor |]. intros _.
    unfold final_level. cbn [foldl]. rewrite Z.eqb_refl. reflexivity.
  - destruct (startsWith (protocol (globals w)) "DSHOT");
      [| split; [constructor | done]].
    rewrite sendDShot_run. cbn [snd fst app].
    split; [| intros _; apply dshot_signal_final].
    rewrite dshot_signal_written. apply Forall_replicate. reflexivity.
Qed.

Lemma throttle_signal_pin_witness :
  final_level 5
    (events_of throttle_signal
       (started {| escPin := 5; protocol := "DSHOT600"; throttleValue := 700;
                   escArmed := true; direction := "FORWARD";
                   directionSupported := true |}))
  = Some LOW.
Proof.
  refine (proj2 (throttle_signal_pin
                   (started {| escPin := 5; protocol := "DSHOT600";
                               throttleValue := 700; escArmed := true;
                               direction := "FORWARD";
                               directionSupported := true |})) _).
  vm_compute. discriminate.
Defined.

(** ** Arming *)

(** X7. An arm request answers 200, sets armed, and stores the idle
    throttle: 1000 under PWM and 48 under any protocol whose name starts
    with DSHOT, leaving every other field as it is.  The signal block of the
    next tick then sends exactly that idle value: a 1000 us pulse, or the
    DShot frame of 48. *)
Theorem arm_then_idle_signal (w : World) :
  let g := globals w in
  let w1 := world_after handleArm w in
  events_of handleArm w = [Send 200 "status" "armed"]
  ∧ escArmed (globals w1) = true
  ∧ escPin (globals w1) = escPin g ∧ protocol (globals w1) = protocol g
  ∧ direction (globals w1) = direction g
  ∧ directionSupported (globals w1) = directionSupported g
  ∧ preferences w1 = preferences w
  ∧ (protocol g = "PWM" →
       throttleValue (globals w1) = 1000
       ∧ events_of throttle_signal w1
         = [DigitalWrite (escPin g) HIGH; DelayMicroseconds 1000;
            DigitalWrite (escPin g) LOW; DelayMicroseconds 19000])
  ∧ (startsWith (protocol g) "DSHOT" = true →
       throttleValue (globals w1) = 48
       ∧ events_of throttle_signal w1
         = dshot_signal (escPin g) (protocol g) 48).
Proof.
  destruct_world w. unfold handleArm, throttle_signal. run_monad.
  destruct (String.eqb proto "PWM") eqn:E; simpl.
  - apply String.eqb_eq in E. subst proto.
    repeat match goal with |- _ ∧ _ => split end; try reflexivity.
    + intros _. split; reflexivity.
    + intros H. discriminate.
  - repeat match goal with |- _ ∧ _ => split end; try reflexivity.
    + intros ->. discriminate.
    + intros Hd. split; [reflexivity |].
      change (48 >? 0) with true. rewrite E, Hd. reflexivity.
Qed.

Lemma arm_then_idle_signal_witness :
  throttleValue
    (globals
       (world_after handleArm
          (started {| escPin := 5; protocol := "DSHOT300"; throttleValue := 0;
                      escArmed := false; direction := "FORWARD";
                      directionSupported := true |})))
  = 48.
Proof.
  pose proof (arm_then_idle_signal
                (started {| escPin := 5; protocol := "DSHOT300";
                            throttleValue := 0; escArmed := false;
                            direction := "FORWARD";
                            directionSupported := true |})) as H.
  cbv zeta in H. destruct H as (_ & _ & _ & _ & _ & _ & _ & _ & H).
  apply H. reflexivity.
Defined.

(** ** Braking *)

(** X8. A brake request is refused with 400, leaving the world untouched
    and the pin unwritten, when direction control is unsupported or the
    controller is disarmed.  When it is supported, armed, and the protocol
    name starts with DSHOT, it stores direction BRAKE and throttle 0 without
    touching the flash store, transmits the motor-stop command 0 ten times
    with 1 ms pauses, answers 200, and the signal block of the following tick
    emits nothing although the controller stays armed. *)
Theorem brake_behaviour (w : World) :
  let g := globals w in
  (directionSupported g = false →
     world_after handleBrake w = w
     ∧ events_of handleBrake w
       = [Send 400 "error" "Braking not supported by current protocol"])
  ∧ (directionSupported g = true → escArmed g = false →
       world_after handleBrake w = w
       ∧ events_of handleBrake w
         = [Send 400 "error" "ESC must be armed to brake"])
  ∧ (directionSupported g = true → escArmed g = true →
     startsWith (protocol g) "DSHOT" = true →
       state_after handleBrake w
       = {| escPin := escPin g; protocol := protocol g; throttleValue := 0;
            escArmed := true; direction := "BRAKE";
            directionSupported := true |}
       ∧ preferences (world_after handleBrake w) = preferences w
       ∧ events_of handleBrake w
         = concat (replicate 10
                     (dshot_signal (escPin g) (protocol g)
                        DSHOT_CMD_MOTOR_STOP ++ [Delay 1]))
           ++ [Send 200 "status" "braking"]
       ∧ events_of throttle_signal (world_after handleBrake w) = []).
Proof.
  destruct_world w. unfold handleBrake. run_monad.
  split; [| split].
  - intros ->. split; reflexivity.
  - intros -> ->. split; reflexivity.
  - intros -> -> Hd. simpl. rewrite sendDShotCommand_run. simpl. rewrite Hd.
    unfold command_burst.
    repeat match goal with |- _ ∧ _ => split end; reflexivity.
Qed.

Lemma brake_behaviour_witness :
  world_after handleBrake
    (started {| escPin := 5; protocol := "DSHOT300"; throttleValue := 900;
                escArmed := false; direction := "REVERSE";
                directionSupported := true |})
  = started {| escPin := 5; protocol := "DSHOT300"; throttleValue := 900;
               escArmed := false; direction := "REVERSE";
               directionSupported := true |}.
Proof.
  refine (proj1 (proj1 (proj2 (brake_behaviour _)) _ _)); reflexivity.
Defined.

(** ** Direction requests that send nothing *)

(** X9. A direction request never touches the world or the pin when it is
    refused: with direction control unsupported it answers 400 whatever the
    body, and with it supported it answers 400 for a missing body, a missing
    key and an unrecognised name.  The name BRAKE is accepted: it is stored
    in the state and in the flash store and answered with 200, but no DShot
    command is transmitted. *)
Theorem setDirection_refusals (w : World) (plain : option (option string)) :
  let g := globals w in
  (directionSupported g = false →
     world_after (handleSetDirection plain) w = w
     ∧ events_of (handleSetDirection plain) w
       = [Send 400 "error"
            "Direction control not supported by current protocol"])
  ∧ (directionSupported g = true →
     (plain = None →
        world_after (handleSetDirection plain) w = w
        ∧ events_of (handleSetDirection plain) w
          = [Send 400 "error" "No data received"])
     ∧ (plain = Some None →
          world_after (handleSetDirection plain) w = w
          ∧ events_of (handleSetDirection plain) w
            = [Send 400 "error" "No direction specified"])
     ∧ (∀ d, plain = Some (Some d) → direction_recognized d = false →
          world_after (handleSetDirection plain) w = w
          ∧ events_of (handleSetDirection plain) w
            = [Send 400 "error" "Invalid direction"])
     ∧ (plain = Some (Some "BRAKE") →
          direction (state_after (handleSetDirection plain) w) = "BRAKE"
          ∧ pref_strings (preferences (world_after (handleSetDirection plain) w))
              !! "direction" = Some "BRAKE"
          ∧ events_of (handleSetDirection plain) w = [Send 200 "status" "ok"])).
Proof.
  destruct_world w. unfold handleSetDirection. run_monad.
  split.
  - intros ->. split; reflexivity.
  - intros ->. simpl. split; [| split; [| split]].
    + intros ->. split; reflexivity.
    + intros ->. split; reflexivity.
    + intros d -> Hd. rewrite Hd. split; reflexivity.
    + intros ->. run_monad. split; [reflexivity |].
      split; [apply lookup_insert_eq | reflexivity].
Qed.

Lemma setDirection_refusals_witness :
  events_of (handleSetDirection (Some (Some "REVERSE")))
    (started initial_globals)
  = [Send 400 "error" "Direction control not supported by current protocol"].
Proof.
  refine (proj2 (proj1 (setDirection_refusals (started initial_globals)
                          (Some (Some "REVERSE"))) _)).
  reflexivity.
Defined.

(** ** Requests with missing input *)

(** X10. A throttle or configure request without a body is answered with
    400 and changes nothing; a body that lacks the expected keys is answered
    with 200 and changes nothing either. *)
Theorem missing_input_ignored (w : World) :
  (world_after (handleSetThrottle None) w = w
   ∧ events_of (handleSetThrottle None) w
     = [Send 400 "error" "No data received"])
  ∧ (world_after (handleSetThrottle (Some None)) w = w
     ∧ events_of (handleSetThrottle (Some None)) w = [Send 200 "status" "ok"])
  ∧ (world_after (handleSetConfig None) w = w
     ∧ events_of (handleSetConfig None) w
       = [Send 400 "error" "No data received"])
  ∧ (world_after
       (handleSetConfig (Some {| doc_pin := None; doc_protocol := None |})) w
     = w
     ∧ events_of
         (handleSetConfig (Some {| doc_pin := None; doc_protocol := None |})) w
       = [Send 200 "status" "ok"]).
Proof.
  destruct_world w. unfold handleSetThrottle, handleSetConfig. run_monad.
  repeat match goal with |- _ ∧ _ => split end; reflexivity.
Qed.

(** ** Changing the pin *)

(** X11. A configure request with a pin in [0,39] releases the old pin to
    input mode, makes the new pin an output and drives it LOW, in this
    order, stores the new pin in the state and in the flash store and answers
    200.  It does so whether or not the controller is armed, and it leaves
    protocol, throttle, armed, direction and directionSupported alone. *)
Theorem configure_pin_change (w : World) (p : Z) :
  0 ≤ p ≤ 39 →
  let g := globals w in
  let req := handleSetConfig (Some {| doc_pin := Some p; doc_protocol := None |}) in
  events_of req w
  = [PinMode (escPin g) INPUT; PinMode p OUTPUT; DigitalWrite p LOW;
     Send 200 "status" "ok"]
  ∧ state_after req w
    = {| escPin := p; protocol := protocol g;
         throttleValue := throttleValue g; escArmed := escArmed g;
         direction := direction g;
         directionSupported := directionSupported g |}
  ∧ pref_ints (preferences (world_after req w)) !! "escPin" = Some p
  ∧ pref_strings (preferences (world_after req w))
    = pref_strings (preferences w).
Proof.
  intros Hp. apply pin_test_spec in Hp.
  destruct_world w. unfold handleSetConfig. run_monad. rewrite Hp. run_monad.
  repeat match goal with |- _ ∧ _ => split end; try reflexivity.
  apply lookup_insert_eq.
Qed.

Lemma configure_pin_change_witness :
  escPin
    (state_after
       (handleSetConfig (Some {| doc_pin := Some 18; doc_protocol := None |}))
       (started {| escPin := 5; protocol := "PWM"; throttleValue := 1500;
                   escArmed := true; direction := "FORWARD";
                   directionSupported := false |}))
  = 18.
Proof.
  pose proof (configure_pin_change
                (started {| escPin := 5; protocol := "PWM";
                            throttleValue := 1500; escArmed := true;
                            direction := "FORWARD";
                            directionSupported := false |}) 18) as H.
  cbv zeta in H. destruct H as (_ & H & _); [lia |].
  rewrite H. reflexivity.
Defined.

(** ** [updateDirectionSupport] *)

(** X12. From any state, [updateDirectionSupport] makes directionSupported
    say whether the protocol name starts with DSHOT and forces direction to
    FORWARD when it does not; it emits nothing, touches no other field and
    no stored setting, and running it twice is the same as running it
    once. *)
Theorem updateDirectionSupport_establishes (w : World) :
  let w1 := world_after updateDirectionSupport w in
  directionSupported (globals w1) = startsWith (protocol (globals w)) "DSHOT"
  ∧ (directionSupported (globals w1) = false → direction (globals w1) = "FORWARD")
  ∧ (directionSupported (globals w1) = true →
       direction (globals w1) = direction (globals w))
  ∧ escPin (globals w1) = escPin (globals w)
  ∧ protocol (globals w1) = protocol (globals w)
  ∧ throttleValue (globals w1) = throttleValue (globals w)
  ∧ escArmed (globals w1) = escArmed (globals w)
  ∧ preferences w1 = preferences w
  ∧ events_of updateDirectionSupport w = []
  ∧ world_after updateDirectionSupport w1 = w1.
Proof.
  unfold world_after, events_of. rewrite !updateDirectionSupport_run.
  cbn [fst snd globals preferences server_started escPin protocol
       throttleValue escArmed direction directionSupported].
  destruct (startsWith (protocol (globals w)) "DSHOT");
    repeat match goal with |- _ ∧ _ => split end;
    try reflexivity; try discriminate; intros _; reflexivity.
Qed.

Lemma updateDirectionSupport_establishes_witness :
  direction
    (globals
       (world_after updateDirectionSupport
          (started {| escPin := 5; protocol := "PWM"; throttleValue := 0;
                      escArmed := false; direction := "REVERSE";
                      directionSupported := true |})))
  = "FORWARD".
Proof.
  pose proof (updateDirectionSupport_establishes
                (started {| escPin := 5; protocol := "PWM"; throttleValue := 0;
                            escArmed := false; direction := "REVERSE";
                            directionSupported := true |})) as H.
  cbv zeta in H. destruct H as (_ & H & _). apply H. reflexivity.
Defined.

(** ** [sendDShotCommand] *)

(** X13. [sendDShotCommand] transmits nothing at all when the protocol name
    does not start with DSHOT; otherwise it emits 670 events, ten frames of
    the command each followed by a 1 ms pause, and spends ten frame times in
    busy waiting.  In both cases the world is unchanged. *)
Theorem sendDShotCommand_guard (command : Z) (w : World) :
  let g := globals w in
  world_after (sendDShotCommand command) w = w
  ∧ (startsWith (protocol g) "DSHOT" = false →
       events_of (sendDShotCommand command) w = [])
  ∧ (startsWith (protocol g) "DSHOT" = true →
       events_of (sendDShotCommand command) w
       = concat (replicate 10
                   (dshot_signal (escPin g) (protocol g) command ++ [Delay 1]))
       ∧ length (events_of (sendDShotCommand command) w) = 670%nat
       ∧ busy_wait_us (events_of (sendDShotCommand command) w)
         = 160 * dshot_bitTime (protocol g)).
Proof.
  unfold world_after, events_of. rewrite sendDShotCommand_run. cbn [fst snd].
  split; [reflexivity |]. split; intros ->; [reflexivity |].
  unfold command_burst. split; [reflexivity |].
  set (blk := dshot_signal (escPin (globals w)) (protocol (globals w)) command
              ++ [Delay 1]).
  assert (Hlen : length blk = 67%nat).
  { subst blk. rewrite length_app. unfold dshot_signal. cbn [app length].
    rewrite length_app, length_bits. reflexivity. }
  assert (Hbusy : busy_wait_us blk = 16 * dshot_bitTime (protocol (globals w))).
  { subst blk. rewrite busy_wait_us_app. cbn [busy_wait_us].
    unfold dshot_signal. cbn [app busy_wait_us].
    rewrite busy_wait_us_app. cbn [busy_wait_us].
    rewrite (busy_wait_bits _ _ _ _ (dshot_bitTime (protocol (globals w)))).
    - change (Z.of_nat (length bit_indices)) with 16. lia.
    - intros b.
      destruct (dshot_timing_cases (protocol (globals w)))
        as [[-> ->] | [[-> ->] | [-> ->]]]; destruct b; reflexivity. }
  clearbody blk. split.
  - cbn [replicate concat]. rewrite !length_app, !Hlen. reflexivity.
  - cbn [replicate concat]. rewrite !busy_wait_us_app, !Hbusy.
    cbn [busy_wait_us]. lia.
Qed.

Lemma sendDShotCommand_guard_witness :
  events_of (sendDShotCommand DSHOT_CMD_SPIN_DIRECTION_REVERSED)
    (started initial_globals) = [].
Proof.
  refine (proj1 (proj2 (sendDShotCommand_guard
                          DSHOT_CMD_SPIN_DIRECTION_REVERSED
                          (started initial_globals))) _).
  reflexivity.
Defined.

(** ** Settings that stay valid *)

Lemma InvSettings_factory : InvSettings factory_world.
Proof. split; simpl; try done; try lia. left. reflexivity. Qed.

Lemma InvSettings_handleSetConfig plain w :
  InvSettings w → InvSettings (world_after (handleSetConfig plain) w).
Proof.
  destruct_world w. intros [Hp Hd Hsp Hsd Hspr]. simpl in *.
  unfold handleSetConfig.
  destruct plain as [[[newPin |] [newProtocol |]] |]; run_monad.
  all: try (destruct ((newPin >=? 0) && (newPin <=? 39)) eqn:Ep;
            [apply pin_test_spec in Ep |]).
  all: try destruct (protocol_recognized newProtocol) eqn:Es.
  all: run_monad; try rewrite updateDirectionSupport_run; simpl.
  all: split; simpl; try assumption.
  all: try (destruct (startsWith newProtocol "DSHOT"); first [assumption | reflexivity]).
  all: try (intros q; rewrite lookup_insert_eq; intros [= <-]; exact Ep).
  all: try (intros q; rewrite lookup_insert_ne by done; apply Hsd).
  all: try (right; apply lookup_insert_eq).
Qed.

Lemma InvSettings_handleSetDirection plain w :
  InvSettings w → InvSettings (world_after (handleSetDirection plain) w).
Proof.
  destruct_world w. intros [Hp Hd Hsp Hsd Hspr]. simpl in *.
  unfold handleSetDirection. run_monad.
  destruct sup; simpl; [| split; simpl; assumption].
  destruct plain as [[newDirection |] |]; run_monad;
    try (split; simpl; assumption).
  destruct (direction_recognized newDirection) eqn:Ed; run_monad;
    [| split; simpl; assumption].
  destruct (String.eqb newDirection "FORWARD");
    [| destruct (String.eqb newDirection "REVERSE")];
    try rewrite sendDShotCommand_run; simpl; split; simpl; try assumption.
  all: try (intros q; rewrite lookup_insert_eq; intros [= <-]; exact Ed).
  all: destruct Hspr as [-> | Hst]; [left; reflexivity |].
  all: right; rewrite lookup_insert_ne by done; exact Hst.
Qed.

Lemma InvSettings_dispatch r w :
  InvSettings w → InvSettings (world_after (dispatch r) w).
Proof.
  destruct r as [| plain | plain | plain | | |]; simpl.
  - intros H. destruct_world w. exact H.
  - apply InvSettings_handleSetConfig.
  - destruct_world w. intros [Hp Hd Hsp Hsd Hspr]. simpl in *.
    unfold handleSetThrottle.
    destruct plain as [[value |] |]; run_monad;
      try destruct (String.eqb proto "PWM"); run_monad;
      split; simpl; assumption.
  - apply InvSettings_handleSetDirection.
  - destruct_world w. intros [Hp Hd Hsp Hsd Hspr]. simpl in *.
    unfold handleArm. run_monad.
    destruct (String.eqb proto "PWM"); run_monad; split; simpl; assumption.
  - destruct_world w. intros [Hp Hd Hsp Hsd Hspr]. simpl in *.
    unfold handleDisarm. run_monad. split; simpl; assumption.
  - destruct_world w. intros [Hp Hd Hsp Hsd Hspr]. simpl in *.
    unfold handleBrake. run_monad.
    destruct sup; simpl; [| split; simpl; assumption].
    destruct armed; simpl; [| split; simpl; assumption].
    rewrite sendDShotCommand_run. simpl.
    split; simpl; first [assumption | reflexivity].
Qed.

Lemma InvSettings_run_op op w :
  InvSettings w → InvSettings (world_after (run_op op) w).
Proof.
  destruct op as [a b | pending].
  - destruct_world w. intros [Hp Hd Hsp Hsd Hspr]. simpl in *.
    unfold setup, power_on. run_monad.
    destruct a; simpl;
      [| split; simpl; try assumption; try lia; try reflexivity;
         left; reflexivity].
    rewrite updateDirectionSupport_run. simpl.
    assert (Hpin : 0 ≤ default 5 (ints !! "escPin") ≤ 39).
    { destruct (ints !! "escPin") as [q |] eqn:E; simpl; [eauto | lia]. }
    assert (Hdir : direction_recognized
                     (if startsWith (default "PWM" (strs !! "protocol")) "DSHOT"
                      then default "FORWARD" (strs !! "direction")
                      else "FORWARD") = true).
    { destruct (startsWith _ "DSHOT"); [| reflexivity].
      destruct (strs !! "direction") as [d |] eqn:E; simpl;
        [eauto | reflexivity]. }
    assert (Hproto : default "PWM" (strs !! "protocol") = "PWM"
                     ∨ strs !! "protocol"
                       = Some (default "PWM" (strs !! "protocol"))).
    { destruct (strs !! "protocol"); simpl; [right | left]; reflexivity. }
    rewrite wifi_wait_run. simpl.
    destruct (connected_after_wait b); simpl; split; simpl; assumption.
  - cbn [run_op]. rewrite loop_world. unfold world_after, handleClient.
    intros H. destruct pending as [r |]; [| exact H].
    destruct (server_started w); [| exact H].
    apply InvSettings_dispatch, H.
Qed.

Lemma reachable_InvSettings w : reachable w → InvSettings w.
Proof.
  induction 1 as [| w op _ IH];
    [apply InvSettings_factory | apply InvSettings_run_op, IH].
Qed.

Lemma direction_recognized_spec d :
  direction_recognized d = true ↔ d = "FORWARD" ∨ d = "REVERSE" ∨ d = "BRAKE".
Proof.
  unfold direction_recognized.
  rewrite !orb_true_iff, !String.eqb_eq. tauto.
Qed.

(** X14. In every reachable state the ESC pin is a GPIO number in [0,39]
    and the direction is one of FORWARD, REVERSE and BRAKE; the pin and the
    direction kept in the flash store are valid too, and whenever the active
    protocol is not PWM it is the protocol kept in the flash store. *)
Theorem settings_valid_reachable (w : World) :
  reachable w →
  0 ≤ escPin (globals w) ≤ 39
  ∧ (direction (globals w) = "FORWARD" ∨ direction (globals w) = "REVERSE"
     ∨ direction (globals w) = "BRAKE")
  ∧ (∀ p, pref_ints (preferences w) !! "escPin" = Some p → 0 ≤ p ≤ 39)
  ∧ (∀ d, pref_strings (preferences w) !! "direction" = Some d →
       d = "FORWARD" ∨ d = "REVERSE" ∨ d = "BRAKE")
  ∧ (protocol (globals w) ≠ "PWM" →
       pref_strings (preferences w) !! "protocol" = Some (protocol (globals w))).
Proof.
  intros Hw. apply reachable_InvSettings in Hw.
  destruct Hw as [Hp Hd Hsp Hsd Hspr].
  split; [exact Hp |]. split; [apply direction_recognized_spec, Hd |].
  split; [exact Hsp |]. split.
  - intros d Hd'. apply direction_recognized_spec, Hsd, Hd'.
  - intros Hne. destruct Hspr as [Hpwm | Hst]; [contradiction | exact Hst].
Qed.

Lemma settings_valid_reachable_witness :
  0 ≤ escPin
        (globals
           (run [Reboot true (wifi_steady true);
                 Loop (Some (PostConfig
                         (Some {| doc_pin := Some 77;
                                  doc_protocol := Some "DSHOT150" |})))]
              factory_world))
    ≤ 39.
Proof.
  refine (proj1 (settings_valid_reachable _ _)).
  apply reachable_run, reach_factory.
Defined.

(** ** Start-up *)

Lemma wifi_waits_spec connected attempts budget :
  let waits := wifi_waits connected attempts budget in
  (waits ≤ budget)%nat
  ∧ (∀ k, (k < waits)%nat → connected (attempts + k)%nat = false)
  ∧ ((waits < budget)%nat → connected (attempts + waits)%nat = true).
Proof.
  revert attempts. induction budget as [| budget IH]; intros attempts.
  - simpl. split; [lia |]. split; intros; lia.
  - cbn [wifi_waits]. destruct (connected attempts) eqn:E.
    + split; [lia |]. split; [intros; lia |].
      intros _. rewrite Nat.add_0_r. exact E.
    + destruct (IH (S attempts)) as (Hle & Hbefore & Hat).
      cbn zeta. split; [lia |]. split.
      * intros [| k] Hk; [rewrite Nat.add_0_r; exact E |].
        rewrite Nat.add_succ_r. apply (Hbefore k). lia.
      * intros Hlt. rewrite Nat.add_succ_r. apply Hat. lia.
Qed.

(** X15. After a reset the controller is disarmed with throttle 1000, the
    flash store is as before, the signal block emits nothing, and the web
    server runs only if SPIFFS mounted and WiFi is connected when [setup]
    tests it after its wait loop.  If SPIFFS fails the globals keep their
    initial values and nothing is emitted: the ESC pin is not even
    configured.  Otherwise pin, protocol and direction are taken from the
    flash store, with 5, PWM and FORWARD as defaults, the pin is made an
    output and driven LOW, and [setup] then calls [delay(1000)] once for
    every test of the wait loop that finds WiFi not connected, up to 30
    times. *)
Theorem reboot_behaviour (spiffs_ok : bool) (wifi : WiFiEnv) (w : World) :
  let boot := run_op (Reboot spiffs_ok wifi) in
  let w1 := world_after boot w in
  let stored := preferences w in
  escArmed (globals w1) = false
  ∧ throttleValue (globals w1) = 1000
  ∧ preferences w1 = stored
  ∧ server_started w1 = spiffs_ok && connected_after_wait wifi
  ∧ events_of throttle_signal w1 = []
  ∧ (spiffs_ok = false → globals w1 = initial_globals ∧ events_of boot w = [])
  ∧ (spiffs_ok = true →
       escPin (globals w1) = default 5 (pref_ints stored !! "escPin")
       ∧ protocol (globals w1) = default "PWM" (pref_strings stored !! "protocol")
       ∧ directionSupported (globals w1)
         = startsWith (protocol (globals w1)) "DSHOT"
       ∧ direction (globals w1)
         = (if directionSupported (globals w1)
            then default "FORWARD" (pref_strings stored !! "direction")
            else "FORWARD")
       ∧ ∃ waits : nat,
           (waits ≤ 30)%nat
           ∧ (∀ k, (k < waits)%nat → connected_at wifi k = false)
           ∧ ((waits < 30)%nat → connected_at wifi waits = true)
           ∧ events_of boot w
             = [PinMode (escPin (globals w1)) OUTPUT;
                DigitalWrite (escPin (globals w1)) LOW]
               ++ replicate waits (Delay 1000)).
Proof.
  destruct_world w. unfold run_op, setup, power_on, throttle_signal. run_monad.
  destruct spiffs_ok; simpl.
  - rewrite updateDirectionSupport_run. simpl. rewrite wifi_wait_run. simpl.
    pose proof (wifi_waits_spec (connected_at wifi) 0 30) as (Hle & Hbefore & Hat).
    destruct (connected_after_wait wifi); simpl;
      repeat match goal with |- _ ∧ _ => split end;
      try reflexivity; try discriminate; intros _;
      repeat match goal with |- _ ∧ _ => split end; try reflexivity;
      exists (wifi_waits (connected_at wifi) 0 30);
      (split; [exact Hle |]; split; [exact Hbefore |]; split; [exact Hat |]);
      rewrite app_nil_r; reflexivity.
  - repeat match goal with |- _ ∧ _ => split end;
      try reflexivity; try discriminate; intros _; split; reflexivity.
Qed.

Lemma reboot_behaviour_witness :
  globals (world_after (run_op (Reboot false (wifi_steady true)))
             (started {| escPin := 12; protocol := "DSHOT600";
                         throttleValue := 2047; escArmed := true;
                         direction := "REVERSE"; directionSupported := true |}))
  = initial_globals.
Proof.
  pose proof (reboot_behaviour false (wifi_steady true)
                (started {| escPin := 12; protocol := "DSHOT600";
                            throttleValue := 2047; escArmed := true;
                            direction := "REVERSE";
                            directionSupported := true |})) as H.
  cbv zeta in H. destruct H as (_ & _ & _ & _ & _ & H & _).
  apply H. reflexivity.
Defined.

(** With WiFi down throughout, [setup] waits thirty times one second after
    it has configured the pin. *)
Example boot_trace_wifi_down :
  events_of (run_op (Reboot true (wifi_steady false))) factory_world
  = [PinMode 5 OUTPUT; DigitalWrite 5 LOW] ++ replicate 30 (Delay 1000).
Proof. reflexivity. Qed.

(** ** Settings across a reset *)

(** X16. A configure request with a valid pin and a recognised protocol
    survives a reset on which SPIFFS mounts: afterwards the pin and the
    protocol are the configured ones and directionSupported is derived from
    the configured protocol. *)
Theorem configure_survives_reboot (w : World) (p : Z) (s : string)
  (wifi : WiFiEnv) :
  0 ≤ p ≤ 39 → protocol_recognized s = true →
  let w1 :=
    world_after
      (handleSetConfig (Some {| doc_pin := Some p; doc_protocol := Some s |})) w in
  let w2 := world_after (run_op (Reboot true wifi)) w1 in
  escPin (globals w2) = p
  ∧ protocol (globals w2) = s
  ∧ directionSupported (globals w2) = startsWith s "DSHOT"
  ∧ (is_dshot_variant s ↔ directionSupported (globals w2) = true).
Proof.
  intros Hp Hs. apply pin_test_spec in Hp.
  destruct_world w. unfold handleSetConfig, run_op, setup, power_on.
  run_monad. rewrite Hp. run_monad. rewrite Hs. run_monad.
  rewrite !updateDirectionSupport_run. simpl.
  rewrite !lookup_insert_eq. simpl. rewrite wifi_wait_run. simpl.
  destruct (connected_after_wait wifi); simpl;
    (split; [reflexivity |]; split; [reflexivity |]; split; [reflexivity |];
     symmetry; apply recognized_startsWith, Hs).
Qed.

Lemma configure_survives_reboot_witness :
  protocol
    (globals
       (world_after (run_op (Reboot true (wifi_steady true)))
          (world_after
             (handleSetConfig
                (Some {| doc_pin := Some 18; doc_protocol := Some "DSHOT300" |}))
             (started initial_globals))))
  = "DSHOT300".
Proof.
  pose proof (configure_survives_reboot (started initial_globals) 18
                "DSHOT300" (wifi_steady true)) as H.
  cbv zeta in H. destruct H as (_ & H & _); [lia | reflexivity |].
  exact H.
Defined.

(** X17. In every reachable state in which direction control is supported,
    an accepted direction request survives a reset on which SPIFFS mounts:
    afterwards the direction is the requested one, under the same protocol
    and with direction control still supported. *)
Theorem direction_survives_reboot (w : World) (d : string) (wifi : WiFiEnv) :
  reachable w →
  directionSupported (globals w) = true →
  direction_recognized d = true →
  let w1 := world_after (handleSetDirection (Some (Some d))) w in
  let w2 := world_after (run_op (Reboot true wifi)) w1 in
  direction (globals w2) = d
  ∧ protocol (globals w2) = protocol (globals w)
  ∧ directionSupported (globals w2) = true.
Proof.
  intros Hw Hsup Hd.
  pose proof (reachable_Inv w Hw) as [_ _ Hs _ _].
  pose proof (reachable_InvSettings w Hw) as [_ _ _ _ Hst].
  destruct_world w. simpl in *. subst sup. symmetry in Hs.
  destruct Hst as [-> | Hst]; [discriminate |].
  unfold handleSetDirection, run_op, setup, power_on. run_monad.
  rewrite Hd. run_monad.
  assert (Hw1 : ∀ c,
            sendDShotCommand c
              {| globals :=
                   {| escPin := pin; protocol := proto; throttleValue := thr;
                      escArmed := armed; direction := d;
                      directionSupported := true |};
                 preferences :=
                   {| pref_ints := ints;
                      pref_strings := <["direction":=d]> strs |};
                 server_started := srv |}
            = (tt,
               {| globals :=
                    {| escPin := pin; protocol := proto; throttleValue := thr;
                       escArmed := armed; direction := d;
                       directionSupported := true |};
                  preferences :=
                    {| pref_ints := ints;
                       pref_strings := <["direction":=d]> strs |};
                  server_started := srv |},
               command_burst pin proto c)).
  { intros c. rewrite sendDShotCommand_run. simpl. rewrite Hs. reflexivity. }
  destruct (String.eqb d "FORWARD");
    [| destruct (String.eqb d "REVERSE")];
    try rewrite Hw1; simpl;
    rewrite !updateDirectionSupport_run; simpl;
    rewrite lookup_insert_eq, lookup_insert_ne, Hst by done; simpl;
    rewrite Hs; simpl; rewrite wifi_wait_run; simpl;
    destruct (connected_after_wait wifi); simpl; repeat split; reflexivity.
Qed.

Lemma direction_survives_reboot_witness :
  let w :=
    run [Reboot true (wifi_steady true);
         Loop (Some (PostConfig
                 (Some {| doc_pin := None; doc_protocol := Some "DSHOT300" |})))]
      factory_world in
  direction
    (globals
       (world_after (run_op (Reboot true (wifi_steady true)))
          (world_after (handleSetDirection (Some (Some "REVERSE"))) w)))
  = "REVERSE".
Proof.
  intros w.
  refine (proj1 (direction_survives_reboot w "REVERSE" (wifi_steady true)
                   _ _ _)).
  - apply reachable_run, reach_factory.
  - vm_compute. reflexivity.
  - reflexivity.
Defined.

(** ** What each request leaves alone *)

Ltac crush_handler :=
  repeat first
    [ progress run_monad
    | rewrite updateDirectionSupport_run
    | rewrite sendDShotCommand_run
    | match goal with
      | |- context [if ?b then _ else _] => destruct b eqn:?
      | |- context [match ?o with Some _ => _ | None => _ end] => destruct o
      end ].

(** X18. The armed flag is changed by arm and disarm requests only; pin,
    protocol and directionSupported by configure requests only; the throttle
    by throttle, arm, disarm and brake requests only; and the flash store by
    configure and direction requests only. *)
Theorem request_frame (r : Request) (w : World) :
  let w1 := world_after (dispatch r) w in
  (r ≠ PostArm → r ≠ PostDisarm →
     escArmed (globals w1) = escArmed (globals w))
  ∧ ((∀ plain, r ≠ PostConfig plain) →
       escPin (globals w1) = escPin (globals w)
       ∧ protocol (globals w1) = protocol (globals w)
       ∧ directionSupported (globals w1) = directionSupported (globals w))
  ∧ ((∀ plain, r ≠ PostThrottle plain) →
     r ≠ PostArm → r ≠ PostDisarm → r ≠ PostBrake →
       throttleValue (globals w1) = throttleValue (globals w))
  ∧ ((∀ plain, r ≠ PostConfig plain) → (∀ plain, r ≠ PostDirection plain) →
       preferences w1 = preferences w)
  ∧ server_started w1 = server_started w.
Proof.
  destruct_world w.
  destruct r as [| plain | plain | plain | | |]; cbn [dispatch];
    unfold handleGetStatus, handleSetConfig, handleSetThrottle,
      handleSetDirection, handleArm, handleDisarm, handleBrake.
  all: repeat match goal with
              | |- _ ∧ _ => split
              end.
  all: intros.
  all: try (exfalso;
            match goal with
            | H : ∀ x, _ ≠ _ |- _ => eapply H; reflexivity
            | H : ?x ≠ ?x |- _ => apply H; reflexivity
            end).
  all: crush_handler; try reflexivity; repeat split; reflexivity.
Qed.

Lemma request_frame_witness :
  escArmed
    (globals
       (world_after (dispatch (PostThrottle (Some (Some 1700))))
          (started {| escPin := 5; protocol := "PWM"; throttleValue := 1000;
                      escArmed := true; direction := "FORWARD";
                      directionSupported := false |})))
  = true.
Proof.
  refine (proj1 (request_frame (PostThrottle (Some (Some 1700))) _) _ _);
    discriminate.
Defined.

(** ** Staying disarmed *)

Lemma disarmed_step op w :
  escArmed (globals w) = false → is_arm_op op = false →
  escArmed (globals (world_after (run_op op) w)) = false.
Proof.
  intros Hoff Hop. destruct op as [a b | pending].
  - destruct_world w. unfold run_op, setup, power_on. run_monad.
    destruct a; simpl; [| reflexivity].
    rewrite updateDirectionSupport_run. simpl. rewrite wifi_wait_run. simpl.
    destruct (connected_after_wait b); reflexivity.
  - cbn [run_op]. rewrite loop_world. unfold world_after, handleClient.
    destruct pending as [r |]; [| exact Hoff].
    destruct (server_started w); [| exact Hoff].
    destruct_world w. simpl in Hoff. subst armed.
    destruct r as [| plain | plain | plain | | |]; try discriminate;
      cbn [dispatch];
      unfold handleGetStatus, handleSetConfig, handleSetThrottle,
        handleSetDirection, handleDisarm, handleBrake;
      crush_handler; reflexivity.
Qed.

Lemma throttle_signal_disarmed w :
  escArmed (globals w) = false → events_of throttle_signal w = [].
Proof.
  intros Hoff. unfold events_of, throttle_signal.
  cbv [mbind M_bind get_globals]. rewrite Hoff. reflexivity.
Qed.

(** X19. Once the controller is disarmed it stays disarmed, and the signal
    block of [loop] stays silent, through every sequence of resets and loop
    iterations that contains no arm request, whatever other requests are
    served. *)
Theorem disarmed_stays_silent (w : World) (ops : list Op) :
  escArmed (globals w) = false →
  forallb (λ op, negb (is_arm_op op)) ops = true →
  escArmed (globals (run ops w)) = false
  ∧ events_of throttle_signal (run ops w) = [].
Proof.
  revert w. induction ops as [| op ops IH]; intros w Hoff Hops.
  - split; [exact Hoff | apply throttle_signal_disarmed, Hoff].
  - cbn [forallb] in Hops. apply andb_true_iff in Hops as [Hop Hops].
    apply negb_true_iff in Hop.
    change (run (op :: ops) w) with (run ops (world_after (run_op op) w)).
    apply IH; [apply disarmed_step; assumption | exact Hops].
Qed.

Lemma disarmed_stays_silent_witness :
  events_of throttle_signal
    (run [Loop (Some (PostThrottle (Some (Some 1800))));
          Loop (Some (PostConfig
                  (Some {| doc_pin := None; doc_protocol := Some "DSHOT600" |})));
          Loop (Some (PostDirection (Some (Some "REVERSE"))));
          Loop None]
       (started initial_globals))
  = [].
Proof.
  refine (proj2 (disarmed_stays_silent _ _ _ _)); reflexivity.
Defined.

(** ** A tick in a reachable state *)

(** X20. In every reachable state, a tick without a pending request that
    finds the controller armed with a positive throttle emits, under PWM, a
    pulse of exactly the stored throttle followed by a LOW time that
    completes 20000 us without wrap-around, and under a DShot variant the
    frame of the stored throttle; the 20 ms pause follows in both cases, and
    the stored throttle is between 1 and 2047. *)
Theorem tick_in_reachable_state (w : World) :
  reachable w →
  escArmed (globals w) = true → throttleValue (globals w) > 0 →
  let g := globals w in
  1 ≤ throttleValue g ≤ 2047
  ∧ (protocol g = "PWM" →
       events_of (loop None) w
       = [DigitalWrite (escPin g) HIGH; DelayMicroseconds (throttleValue g);
          DigitalWrite (escPin g) LOW;
          DelayMicroseconds (20000 - throttleValue g); Delay 20])
  ∧ (is_dshot_variant (protocol g) →
       events_of (loop None) w
       = dshot_signal (escPin g) (protocol g) (throttleValue g) ++ [Delay 20]).
Proof.
  intros Hw Harm Hthr.
  pose proof (reachable_Inv w Hw) as [Ht _ _ _ _].
  destruct_world w. simpl in *. subst armed.
  assert (Hpos : (thr >? 0) = true) by (apply Z.gtb_lt; lia).
  split; [lia |].
  unfold loop, handleClient, throttle_signal. run_monad. rewrite Hpos.
  split.
  - intros ->. simpl. rewrite !to_u32_small by lia. reflexivity.
  - intros Hd. rewrite (dshot_variant_not_PWM _ Hd).
    rewrite (dshot_variant_startsWith _ Hd). reflexivity.
Qed.

Lemma tick_in_reachable_state_witness :
  let w :=
    run [Reboot true (wifi_steady true); Loop (Some PostArm);
         Loop (Some (PostThrottle (Some (Some 1500))))] factory_world in
  events_of (loop None) w
  = [DigitalWrite 5 HIGH; DelayMicroseconds 1500;
     DigitalWrite 5 LOW; DelayMicroseconds 18500; Delay 20].
Proof.
  intros w.
  pose proof (tick_in_reachable_state w) as H.
  cbv zeta in H. destruct H as (_ & H & _).
  - apply reachable_run, reach_factory.
  - vm_compute. reflexivity.
  - vm_compute. reflexivity.
  - apply H. vm_compute. reflexivity.
Defined.

(** ** PWM pulses outside the servo range *)

Lemma carried_throttle_globals (prefs : Prefs) (v : Z) :
  1 ≤ v ≤ 2047 →
  globals
    (run [Loop (Some (PostConfig
                  (Some {| doc_pin := None; doc_protocol := Some "DSHOT150" |})));
          Loop (Some PostArm);
          Loop (Some (PostThrottle (Some (Some v))));
          Loop (Some (PostConfig
                  (Some {| doc_pin := None; doc_protocol := Some "PWM" |})))]
       {| globals := initial_globals; preferences := prefs;
          server_started := true |})
  = {| escPin := 5; protocol := "PWM"; throttleValue := v; escArmed := true;
       direction := "FORWARD"; directionSupported := false |}.
Proof.
  intros Hv. destruct prefs as [ints strs].
  unfold run. cbn [foldl run_op]. rewrite !loop_world.
  unfold world_after, handleClient. cbn [server_started dispatch].
  unfold handleSetConfig at 2. run_monad.
  rewrite constrain_nearest by lia.
  replace (Z.max 0 (Z.min 2047 v)) with v by lia. reflexivity.
Qed.

(** X21. The throttle stored under DShot is kept when a configure request
    switches to PWM, so for every v from 1 to 2047 there is a reachable state
    under PWM in which a tick sends a pulse of v microseconds: start up,
    select DSHOT150, arm, set the throttle to v, select PWM.  Pulses shorter
    than 1000 us and longer than 2000 us are among them. *)
Theorem pwm_pulse_outside_range_reachable (v : Z) :
  1 ≤ v ≤ 2047 →
  ∃ w, reachable w
       ∧ protocol (globals w) = "PWM"
       ∧ events_of (loop None) w
         = [DigitalWrite 5 HIGH; DelayMicroseconds v;
            DigitalWrite 5 LOW; DelayMicroseconds (20000 - v); Delay 20].
Proof.
  intros Hv.
  set (ops := [Loop (Some (PostConfig
                     (Some {| doc_pin := None; doc_protocol := Some "DSHOT150" |})));
               Loop (Some PostArm);
               Loop (Some (PostThrottle (Some (Some v))));
               Loop (Some (PostConfig
                       (Some {| doc_pin := None; doc_protocol := Some "PWM" |})))]).
  exists (run (Reboot true (wifi_steady true) :: ops) factory_world).
  split; [apply reachable_run, reach_factory |].
  change (run (Reboot true (wifi_steady true) :: ops) factory_world)
    with (run ops {| globals := initial_globals;
                     preferences := {| pref_ints := ∅; pref_strings := ∅ |};
                     server_started := true |}).
  pose proof (carried_throttle_globals
                {| pref_ints := ∅; pref_strings := ∅ |} v Hv) as Hg.
  fold ops in Hg. split; [rewrite Hg; reflexivity |].
  unfold events_of, loop, handleClient, throttle_signal.
  cbv [mbind mret M_bind M_ret skip get_globals delay emit]. rewrite Hg.
  cbn [escArmed throttleValue protocol].
  assert ((v >? 0) = true) as -> by (apply Z.gtb_lt; lia).
  cbn [andb]. change (String.eqb "PWM" "PWM") with true. cbn iota.
  rewrite sendPWM_run, Hg. cbn [escPin snd fst app].
  rewrite !to_u32_small by lia. reflexivity.
Qed.

Lemma pwm_pulse_outside_range_reachable_witness :
  ∃ w, reachable w
       ∧ protocol (globals w) = "PWM"
       ∧ events_of (loop None) w
         = [DigitalWrite 5 HIGH; DelayMicroseconds 48;
            DigitalWrite 5 LOW; DelayMicroseconds (20000 - 48); Delay 20].
Proof.
  apply (pwm_pulse_outside_range_reachable 48). lia.
Defined.

(** ** Values outside the frame's range *)

(** X22. [sendDShot] does not check its argument: the frame is always a
    16-bit number and depends only on the low fifteen bits of the value, so
    a value that exceeds the range by a multiple of 32768 gives the frame of
    the value it wraps to. *)
Theorem dshot_frame_wraps (value k : Z) :
  0 ≤ dshot_frame value < 65536
  ∧ dshot_frame (value + 32768 * k) = dshot_frame value.
Proof.
  split; [apply dshot_frame_range |].
  unfold dshot_frame.
  assert (Hp : to_u16 (Z.shiftl (value + 32768 * k) 1)
               = to_u16 (Z.shiftl value 1)).
  { unfold to_u16. rewrite !Z.shiftl_mul_pow2 by lia.
    replace ((value + 32768 * k) * 2 ^ 1) with (value * 2 ^ 1 + k * 2 ^ 16)
      by lia.
    apply Z.mod_add. lia. }
  rewrite Hp. reflexivity.
Qed.

(** ** Throttle values in the command band *)

(** X23. Under a protocol whose name starts with DSHOT, a throttle request
    for a value from 1 to 47 is stored as it is, and while the controller is
    armed every following tick transmits the frame of that value, which is
    the frame [sendDShot] sends for the special command of the same
    number. *)
Theorem command_band_throttle_is_sent (w : World) (v : Z) :
  startsWith (protocol (globals w)) "DSHOT" = true →
  escArmed (globals w) = true →
  1 ≤ v ≤ 47 →
  let w1 := world_after (handleSetThrottle (Some (Some v))) w in
  throttleValue (globals w1) = v
  ∧ events_of throttle_signal w1 = events_of (sendDShot v) w
  ∧ events_of (sendDShotCommand v) w
    = concat (replicate 10 (events_of throttle_signal w1 ++ [Delay 1])).
Proof.
  intros Hd Harm Hv. pose proof (startsWith_DSHOT_not_PWM _ Hd) as Hpwm.
  unfold events_of. rewrite sendDShotCommand_run, sendDShot_run, Hd.
  destruct_world w. simpl in *. subst armed.
  unfold handleSetThrottle, throttle_signal. run_monad. rewrite Hpwm.
  run_monad. rewrite constrain_nearest by lia.
  replace (Z.max 0 (Z.min 2047 v)) with v by lia.
  assert ((v >? 0) = true) as -> by (apply Z.gtb_lt; lia).
  rewrite Hpwm, Hd. simpl. repeat split; reflexivity.
Qed.

Lemma command_band_throttle_is_sent_witness :
  let w :=
    started {| escPin := 5; protocol := "DSHOT300"; throttleValue := 48;
               escArmed := true; direction := "FORWARD";
               directionSupported := true |} in
  throttleValue
    (globals (world_after (handleSetThrottle (Some (Some 21))) w)) = 21.
Proof.
  intros w.
  refine (proj1 (command_band_throttle_is_sent w 21 _ _ _));
    [reflexivity | reflexivity | lia].
Defined.
